(** * armiarma: the crawler runtime, embedded and checked against its specification

    The development follows the sources:
    - [gossipsub.go]  (package gossipsub): the message-id function;
    - [peerstore.go]  (package metrics):   the peer store and its per-peer events;
    - the Filecoin crawler (package crawler): the connection workers and the
      discovery feed ([discoveredPeers]) with its blacklist.

    Go values are embedded shallowly: byte slices are [list byte], Go strings
    are [string], maps are stdpp [gmap]s, unsigned machine words are [Z] with
    the wrap-around written out, and a function that returns [(T, error)] or
    that may panic returns a sum. Logging has no effect on any modelled state
    and is left out. *)

From Stdlib Require Import ZArith List String Ascii Lia Bool.
From Stdlib.Strings Require Import Byte.
From stdpp Require Import base option gmap strings list fin_maps.

Local Open Scope Z_scope.

(** ** Bytes *)

Module Bytes.

(** [uint(b)]: the value of a byte as an unsigned integer. *)
Definition u (b : byte) : Z := Z.of_N (Byte.to_N b).

(** [byte(z)]: conversion of an unsigned integer to a byte keeps the low
    eight bits. *)
Definition trunc (z : Z) : byte :=
  match Byte.of_N (Z.to_N (Z.land z 255)) with
  | Some b => b
  | None => x00
  end.

Definition of_string (s : string) : list byte := list_byte_of_string s.

End Bytes.

(** ** SHA-256 (FIPS 180-4), the hash behind [sha256.New], [Write], [Sum] *)

Module SHA256.

Definition w32 (x : Z) : Z := x mod 2 ^ 32.
Definition add32 (x y : Z) : Z := w32 (x + y).
Definition rotr (n x : Z) : Z :=
  w32 (Z.lor (Z.shiftr x n) (Z.shiftl x (32 - n))).
Definition not32 (x : Z) : Z := 2 ^ 32 - 1 - x.

Definition Ch (x y z : Z) : Z := Z.lxor (Z.land x y) (Z.land (not32 x) z).
Definition Maj (x y z : Z) : Z :=
  Z.lxor (Z.lxor (Z.land x y) (Z.land x z)) (Z.land y z).
Definition Sigma0 (x : Z) : Z := Z.lxor (Z.lxor (rotr 2 x) (rotr 13 x)) (rotr 22 x).
Definition Sigma1 (x : Z) : Z := Z.lxor (Z.lxor (rotr 6 x) (rotr 11 x)) (rotr 25 x).
Definition sigma0 (x : Z) : Z := Z.lxor (Z.lxor (rotr 7 x) (rotr 18 x)) (Z.shiftr x 3).
Definition sigma1 (x : Z) : Z := Z.lxor (Z.lxor (rotr 17 x) (rotr 19 x)) (Z.shiftr x 10).

(** The constants are the first 32 bits of the fractional parts of the
    square roots (initial hash value) and cube roots (round constants) of
    the first primes; they are computed here rather than tabulated. *)
Fixpoint has_divisor (fuel : nat) (d n : Z) : bool :=
  match fuel with
  | O => false
  | S f => if n <? d * d then false
           else if n mod d =? 0 then true
           else has_divisor f (d + 1) n
  end.

Definition is_prime (n : Z) : bool := (2 <=? n) && negb (has_divisor (Z.to_nat n) 2 n).

Fixpoint primes_from (fuel : nat) (n : Z) (count : nat) : list Z :=
  match fuel, count with
  | _, O => []
  | O, _ => []
  | S f, S c => if is_prime n then n :: primes_from f (n + 1) c
                else primes_from f (n + 1) count
  end.

(** Largest [r] in [[lo, hi)] with [r ^ 3 <= n], by bisection. *)
Fixpoint cbrt_between (fuel : nat) (lo hi n : Z) : Z :=
  match fuel with
  | O => lo
  | S f => let mid := (lo + hi) / 2 in
           if hi - lo <=? 1 then lo
           else if mid * mid * mid <=? n then cbrt_between f mid hi n
           else cbrt_between f lo mid n
  end.

Definition frac_sqrt32 (p : Z) : Z := w32 (Z.sqrt (p * 2 ^ 64)).
Definition frac_cbrt32 (p : Z) : Z := w32 (cbrt_between 64 0 (2 ^ 36) (p * 2 ^ 96)).

Definition H0 : list Z := Eval vm_compute in map frac_sqrt32 (primes_from 400 2 8).
Definition K : list Z := Eval vm_compute in map frac_cbrt32 (primes_from 400 2 64).

(** Padding: a one bit, zeros up to 56 mod 64, the bit length on 64 bits. *)
Definition be_bytes (n : nat) (x : Z) : list byte :=
  map (fun i => Bytes.trunc (Z.shiftr x (8 * Z.of_nat i))) (rev (seq 0 n)).

Definition pad (msg : list byte) : list byte :=
  let len := Z.of_nat (length msg) in
  msg ++ [x80] ++ repeat x00 (Z.to_nat ((55 - len) mod 64))
      ++ be_bytes 8 ((8 * len) mod 2 ^ 64).

Fixpoint be_words (bs : list byte) : list Z :=
  match bs with
  | b0 :: b1 :: b2 :: b3 :: rest =>
      Z.lor (Z.lor (Z.lor (Z.shiftl (Bytes.u b0) 24) (Z.shiftl (Bytes.u b1) 16))
                   (Z.shiftl (Bytes.u b2) 8)) (Bytes.u b3) :: be_words rest
  | _ => []
  end.

(** The message schedule, latest word first. *)
Fixpoint schedule (n : nat) (rev_w : list Z) : list Z :=
  match n with
  | O => rev_w
  | S n' =>
      let at_ i := nth i rev_w 0 in
      let w := add32 (add32 (sigma1 (at_ 1%nat)) (at_ 6%nat))
                     (add32 (sigma0 (at_ 14%nat)) (at_ 15%nat)) in
      schedule n' (w :: rev_w)
  end.

Record regs := Regs { ra : Z; rb : Z; rc : Z; rd : Z; re : Z; rf : Z; rg : Z; rh : Z }.

Definition round (s : regs) (kw : Z * Z) : regs :=
  let t1 := add32 (add32 (add32 (add32 (rh s) (Sigma1 (re s))) (Ch (re s) (rf s) (rg s)))
                         (fst kw)) (snd kw) in
  let t2 := add32 (Sigma0 (ra s)) (Maj (ra s) (rb s) (rc s)) in
  Regs (add32 t1 t2) (ra s) (rb s) (rc s) (add32 (rd s) t1) (re s) (rf s) (rg s).

Definition compress (h : regs) (block : list byte) : regs :=
  let w := rev (schedule 48 (rev (be_words block))) in
  let s := fold_left round (combine K w) h in
  Regs (add32 (ra h) (ra s)) (add32 (rb h) (rb s)) (add32 (rc h) (rc s))
       (add32 (rd h) (rd s)) (add32 (re h) (re s)) (add32 (rf h) (rf s))
       (add32 (rg h) (rg s)) (add32 (rh h) (rh s)).

Fixpoint blocks (fuel : nat) (h : regs) (bs : list byte) : regs :=
  match fuel, bs with
  | S f, _ :: _ => blocks f (compress h (firstn 64 bs)) (skipn 64 bs)
  | _, _ => h
  end.

Definition init : regs :=
  let at_ i := nth i H0 0 in
  Regs (at_ 0%nat) (at_ 1%nat) (at_ 2%nat) (at_ 3%nat)
       (at_ 4%nat) (at_ 5%nat) (at_ 6%nat) (at_ 7%nat).

Definition digest_bytes (h : regs) : list byte :=
  be_bytes 4 (ra h) ++ be_bytes 4 (rb h) ++ be_bytes 4 (rc h) ++ be_bytes 4 (rd h)
  ++ be_bytes 4 (re h) ++ be_bytes 4 (rf h) ++ be_bytes 4 (rg h) ++ be_bytes 4 (rh h).

Definition Sum256 (msg : list byte) : list byte :=
  let p := pad msg in digest_bytes (blocks (length p) init p).

(** The streaming interface the program uses: [New], [Write], [Sum]. The
    hasher state is the data written so far. *)
Record Hash := { written : list byte }.
Definition New : Hash := {| written := [] |}.
Definition Write (h : Hash) (p : list byte) : Hash := {| written := written h ++ p |}.
Definition Sum (h : Hash) (b : list byte) : list byte := b ++ Sum256 (written h).

End SHA256.

(** ** Base64 (RFC 4648), as in Go's [encoding/base64] *)

Module Base64.

(** An [Encoding] is an alphabet of 64 characters and an optional padding
    character. *)
Record Encoding := { encode : string; padChar : option ascii }.

Definition encodeStd : string :=
  "ABCDEFGHIJKLMNOPQRSTUVWXYZabcdefghijklmnopqrstuvwxyz0123456789+/".
Definition encodeURL : string :=
  "ABCDEFGHIJKLMNOPQRSTUVWXYZabcdefghijklmnopqrstuvwxyz0123456789-_".
Definition StdPadding : ascii := "="%char.

Definition NewEncoding (alphabet : string) : Encoding :=
  {| encode := alphabet; padChar := Some StdPadding |}.
Definition WithPadding (enc : Encoding) (p : option ascii) : Encoding :=
  {| encode := encode enc; padChar := p |}.

Definition StdEncoding : Encoding := NewEncoding encodeStd.
Definition URLEncoding : Encoding := NewEncoding encodeURL.
Definition RawURLEncoding : Encoding := WithPadding URLEncoding None.

(** [enc.encode[i]] *)
Definition char_at (enc : Encoding) (i : Z) : ascii :=
  match String.get (Z.to_nat i) (encode enc) with
  | Some c => c
  | None => Ascii.zero
  end.

Fixpoint repeat_char (n : nat) (c : ascii) (tail : string) : string :=
  match n with
  | O => tail
  | S n' => String c (repeat_char n' c tail)
  end.

Definition with_pad (enc : Encoding) (n : nat) (tail : string) : string :=
  match padChar enc with
  | Some p => repeat_char n p tail
  | None => tail
  end.

(** [Encoding.EncodeToString]: three bytes become four characters; a last
    group of one or two bytes becomes two or three characters and the
    padding. *)
Fixpoint EncodeToString (enc : Encoding) (src : list byte) : string :=
  match src with
  | [] => EmptyString
  | [b0] =>
      let val := Z.shiftl (Bytes.u b0) 16 in
      String (char_at enc (Z.land (Z.shiftr val 18) 63))
        (String (char_at enc (Z.land (Z.shiftr val 12) 63))
           (with_pad enc 2 EmptyString))
  | [b0; b1] =>
      let val := Z.lor (Z.shiftl (Bytes.u b0) 16) (Z.shiftl (Bytes.u b1) 8) in
      String (char_at enc (Z.land (Z.shiftr val 18) 63))
        (String (char_at enc (Z.land (Z.shiftr val 12) 63))
           (String (char_at enc (Z.land (Z.shiftr val 6) 63))
              (with_pad enc 1 EmptyString)))
  | b0 :: b1 :: b2 :: rest =>
      let val := Z.lor (Z.lor (Z.shiftl (Bytes.u b0) 16) (Z.shiftl (Bytes.u b1) 8))
                       (Bytes.u b2) in
      String (char_at enc (Z.land (Z.shiftr val 18) 63))
        (String (char_at enc (Z.land (Z.shiftr val 12) 63))
           (String (char_at enc (Z.land (Z.shiftr val 6) 63))
              (String (char_at enc (Z.land val 63))
                 (EncodeToString enc rest))))
  end.

(** [Encoding.EncodedLen] *)
Definition EncodedLen (enc : Encoding) (n : nat) : nat :=
  match padChar enc with
  | None => (n / 3 * 4 + (n mod 3 * 8 + 5) / 6)%nat
  | Some _ => ((n + 2) / 3 * 4)%nat
  end.

(** The decoder of a padded encoding, the inverse used to state that the
    text keeps every bit of the bytes. *)
Fixpoint index_from (i : Z) (c : ascii) (alphabet : string) : option Z :=
  match alphabet with
  | EmptyString => None
  | String a rest => if Ascii.eqb a c then Some i else index_from (i + 1) c rest
  end.

Definition sextet (enc : Encoding) (c : ascii) : option Z := index_from 0 c (encode enc).

Definition is_pad (enc : Encoding) (c : ascii) : bool :=
  match padChar enc with
  | Some p => Ascii.eqb p c
  | None => false
  end.

Fixpoint DecodeString (enc : Encoding) (s : string) : option (list byte) :=
  match s with
  | EmptyString => Some []
  | String c0 (String c1 (String c2 (String c3 rest))) =>
      s0 ← sextet enc c0;
      s1 ← sextet enc c1;
      if is_pad enc c2 then
        if is_pad enc c3 && (if rest is EmptyString then true else false) then
          let val := Z.lor (Z.shiftl s0 18) (Z.shiftl s1 12) in
          Some [Bytes.trunc (Z.shiftr val 16)]
        else None
      else
        s2 ← sextet enc c2;
        if is_pad enc c3 then
          if rest is EmptyString then
            let val := Z.lor (Z.lor (Z.shiftl s0 18) (Z.shiftl s1 12)) (Z.shiftl s2 6) in
            Some [Bytes.trunc (Z.shiftr val 16); Bytes.trunc (Z.shiftr val 8)]
          else None
        else
          s3 ← sextet enc c3;
          tail ← DecodeString enc rest;
          let val := Z.lor (Z.lor (Z.lor (Z.shiftl s0 18) (Z.shiftl s1 12)) (Z.shiftl s2 6)) s3 in
          Some (Bytes.trunc (Z.shiftr val 16) :: Bytes.trunc (Z.shiftr val 8)
                  :: Bytes.trunc val :: tail)
  | _ => None
  end.

(** The alphabet has 64 distinct characters and none is the padding:
    every index is found back from its character. *)
Definition alphabet_ok (enc : Encoding) : bool :=
  forallb
    (fun n =>
       let c := char_at enc (Z.of_nat n) in
       match sextet enc c with
       | Some s => (s =? Z.of_nat n) && negb (is_pad enc c)
       | None => false
       end)
    (seq 0 64).

End Base64.

(** ** Package gossipsub: the message id *)

Module Gossip.

(** [pubsub_pb.Message]: the fields of the protobuf message. *)
Record Message := {
  From_ : list byte;
  Data : list byte;
  Seqno : list byte;
  Topic : string;
  Signature : list byte;
  Key : list byte
}.

(** [MsgIDFunction] *)
Definition MsgIDFunction (pmsg : Message) : string :=
  let h := SHA256.New in
  let h := SHA256.Write h (Data pmsg) in
  let id := SHA256.Sum h [] in
  Base64.EncodeToString Base64.URLEncoding id.

End Gossip.

(** ** Package metrics: the peer store *)

(** Go's [error]: [nil] is [None], an error is its message. *)
Definition error : Type := string.

(** Instants and durations ([time.Time], [time.Duration]) in nanoseconds. *)
Definition Time : Type := Z.
Definition Duration : Type := Z.
Definition Second : Duration := 1000000000.

Module Peer.

(** Modelled from the spec: the [Peer] record, whose declaration is not
    among the sources. The fields that [peerstore.go] reads or writes are
    listed under their names there; the attempts counter is the unbounded
    counter of the data model; every other field of the record (identity,
    network, event history, message counters, attempt log) is kept in
    [Rest]. *)
Record t (R : Type) := Make {
  PeerId : string;
  MetadataRequest : bool;
  MetadataSucceed : bool;
  Attempted : bool;
  Succeed : bool;
  Attempts : N;
  Error : string;
  Rest : R
}.
Arguments Make {R}.
Arguments PeerId {R}.
Arguments MetadataRequest {R}.
Arguments MetadataSucceed {R}.
Arguments Attempted {R}.
Arguments Succeed {R}.
Arguments Attempts {R}.
Arguments Error {R}.
Arguments Rest {R}.

Section Setters.
Context {R : Type}.
Definition set_MetadataRequest (b : bool) (p : t R) : t R :=
  Make (PeerId p) b (MetadataSucceed p) (Attempted p) (Succeed p) (Attempts p) (Error p) (Rest p).
Definition set_MetadataSucceed (b : bool) (p : t R) : t R :=
  Make (PeerId p) (MetadataRequest p) b (Attempted p) (Succeed p) (Attempts p) (Error p) (Rest p).
Definition set_Attempted (b : bool) (p : t R) : t R :=
  Make (PeerId p) (MetadataRequest p) (MetadataSucceed p) b (Succeed p) (Attempts p) (Error p) (Rest p).
Definition set_Succeed (b : bool) (p : t R) : t R :=
  Make (PeerId p) (MetadataRequest p) (MetadataSucceed p) (Attempted p) b (Attempts p) (Error p) (Rest p).
Definition set_Attempts (n : N) (p : t R) : t R :=
  Make (PeerId p) (MetadataRequest p) (MetadataSucceed p) (Attempted p) (Succeed p) n (Error p) (Rest p).
Definition set_Error (e : string) (p : t R) : t R :=
  Make (PeerId p) (MetadataRequest p) (MetadataSucceed p) (Attempted p) (Succeed p) (Attempts p) e (Rest p).
End Setters.

(** The methods of [Peer] that the store calls and whose bodies are not
    among the sources, with [utils.FilterError], the classifier of error
    strings. A method with a pointer receiver is a function from the
    record to the updated record. *)
Class Methods (R : Type) := {
  ConnectionEvent : t R → string → Time → t R;
  DisconnectionEvent : t R → Time → t R;
  ConnectionAttemptEvent : t R → bool → string → t R;
  MessageEvent : t R → string → Time → t R;
  AddPositiveConnAttempt : t R → t R;
  ResetDynamicMetrics : t R → t R;
  FetchPeerInfoFromPeer : t R → t R → t R;
  FilterError : string → string
}.

End Peer.

Module PeerStore.

Abbreviation Peer := Peer.t.

(** [ErrorHandling]: the callback of the prune policy, a function on a pointer
    to the peer. *)
Definition ErrorHandling (R : Type) : Type := Peer R → Peer R.

(** [PeerStoreStorage]: the interface of the two backends. The Bolt
    backend is a file at a path, the memory backend a guarded map; both
    hold a map from peer id to peer. *)
Inductive PeerStoreStorage (R : Type) :=
| BoltPeerDB (path : string) (bucket : gmap string (Peer R))
| MemoryDB (m : gmap string (Peer R)).
Arguments BoltPeerDB {R}.
Arguments MemoryDB {R}.

Section Storage.
Context {R : Type}.

Definition contents (db : PeerStoreStorage R) : gmap string (Peer R) :=
  match db with
  | BoltPeerDB _ m => m
  | MemoryDB m => m
  end.

Definition Store (db : PeerStoreStorage R) (key : string) (value : Peer R)
  : PeerStoreStorage R :=
  match db with
  | BoltPeerDB path m => BoltPeerDB path (<[key := value]> m)
  | MemoryDB m => MemoryDB (<[key := value]> m)
  end.

Definition Load (db : PeerStoreStorage R) (key : string) : option (Peer R) :=
  contents db !! key.

(** [Range]: the callback is called on every entry until it returns
    [false]; here it also threads the state [S] it works on. *)
Fixpoint range_list {S : Type} (f : string → Peer R → S → S * bool)
         (l : list (string * Peer R)) (s : S) : S :=
  match l with
  | [] => s
  | (k, v) :: l' => let '(s', go) := f k v s in
                    if go then range_list f l' s' else s'
  end.

Definition Range {S : Type} (db : PeerStoreStorage R)
           (f : string → Peer R → S → S * bool) (s : S) : S :=
  range_list f (map_to_list (contents db)) s.

(** [NewMemoryDB] is an empty map; [NewBoltPeerDB] opens the file at the
    path, whose stored peers are given by [disk]. *)
Definition NewMemoryDB : PeerStoreStorage R := MemoryDB ∅.
Definition NewBoltPeerDB (disk : string → gmap string (Peer R)) (path : string)
  : PeerStoreStorage R := BoltPeerDB path (disk path).
End Storage.

(** [PeerStore]. The message database is not set by the constructor and is
    not used by the operations below. *)
Record PeerStore (R : Type) := {
  Storage : PeerStoreStorage R;
  StartTime : Time;
  PeerstoreIterTime : Duration;
  MsgNotChannels : gmap string (list bool)
}.
Arguments Storage {R}.
Arguments StartTime {R}.
Arguments PeerstoreIterTime {R}.
Arguments MsgNotChannels {R}.

Section Operations.
Context {R : Type} {M : Peer.Methods R}.
(** The package constant [default_db_path] and the state of the disk. *)
Variable default_db_path : string.
Variable disk : string → gmap string (Peer R).

Definition with_Storage (c : PeerStore R) (db : PeerStoreStorage R) : PeerStore R :=
  {| Storage := db; StartTime := StartTime c;
     PeerstoreIterTime := PeerstoreIterTime c; MsgNotChannels := MsgNotChannels c |}.

(** [NewPeerStore]; [now] is the value of [time.Now()]. *)
Definition NewPeerStore (now : Time) (dbtype : string) (path : string) : PeerStore R :=
  let db :=
    if String.eqb dbtype "bold" then
      let path := if (String.length path <=? 0)%nat then default_db_path else path in
      NewBoltPeerDB disk path
    else if String.eqb dbtype "memory" then
      NewMemoryDB
    else
      let path := if (String.length path <=? 0)%nat then default_db_path else path in
      NewBoltPeerDB disk path
  in
  {| Storage := db; StartTime := now; PeerstoreIterTime := 0; MsgNotChannels := ∅ |}.

(** [StorePeer] *)
Definition StorePeer (c : PeerStore R) (peer : Peer R) : PeerStore R :=
  with_Storage c (Store (Storage c) (Peer.PeerId peer) peer).

(** [GetPeerData] *)
Definition GetPeerData (c : PeerStore R) (peerId : string) : Peer R + error :=
  match Load (Storage c) peerId with
  | None => inr ("could not find peer in peerstore: " +:+ peerId)
  | Some peerData => inl peerData
  end.

(** [StoreOrUpdatePeer] *)
Definition StoreOrUpdatePeer (c : PeerStore R) (peer : Peer R) : PeerStore R :=
  match GetPeerData c (Peer.PeerId peer) with
  | inr _ => with_Storage c (Store (Storage c) (Peer.PeerId peer) peer)
  | inl oldPeer =>
      let oldPeer := Peer.FetchPeerInfoFromPeer oldPeer peer in
      with_Storage c (Store (Storage c) (Peer.PeerId peer) oldPeer)
  end.

(** [ResetDynamicMetrics] *)
Definition ResetDynamicMetrics (c : PeerStore R) : PeerStore R :=
  with_Storage c
    (Range (Storage c)
           (fun key value db => (Store db key (Peer.ResetDynamicMetrics value), true))
           (Storage c)).

(** [AddNewNegConnectionAttempt] *)
Definition AddNewNegConnectionAttempt (c : PeerStore R) (id : string) (rec_err : string)
           (fn : ErrorHandling R) : option error * PeerStore R :=
  match GetPeerData c id with
  | inr _ => (Some ("Not peer found with that ID " +:+ id), c)
  | inl p =>
      let p := Peer.set_Attempts (Peer.Attempts p + 1)%N p in
      let p := if negb (Peer.Attempted p)
               then Peer.set_Error (Peer.FilterError rec_err) (Peer.set_Attempted true p)
               else p in
      let p := fn p in
      (None, StorePeer c p)
  end.

(** [AddNewPosConnectionAttempt] *)
Definition AddNewPosConnectionAttempt (c : PeerStore R) (id : string)
  : option error * PeerStore R :=
  match GetPeerData c id with
  | inr _ => (Some ("Not peer found with that ID " +:+ id), c)
  | inl p =>
      let p := Peer.set_Attempts (Peer.Attempts p + 1)%N p in
      let p := if negb (Peer.Attempted p) then Peer.set_Attempted true p else p in
      let p := Peer.set_Succeed true p in
      let p := Peer.set_Error "None" p in
      let p := Peer.AddPositiveConnAttempt p in
      (None, StorePeer c p)
  end.

(** A connection attempt on a peer, negative or positive, and a
    sequence of attempts on one peer. *)
Inductive AttemptOp :=
| NegAttempt (rec_err : string) (fn : ErrorHandling R)
| PosAttempt.

Definition attempt (c : PeerStore R) (id : string) (op : AttemptOp)
  : option error * PeerStore R :=
  match op with
  | NegAttempt rec_err fn => AddNewNegConnectionAttempt c id rec_err fn
  | PosAttempt => AddNewPosConnectionAttempt c id
  end.

Definition attempts (c : PeerStore R) (id : string) (ops : list AttemptOp) : PeerStore R :=
  fold_left (fun c op => snd (attempt c id op)) ops c.

(** A method or a callback that leaves the identity and the attempt
    fields of the peer as they are: what is assumed of the prune policy
    and of [AddPositiveConnAttempt], whose bodies are not among the
    sources. *)
Definition keeps_attempt_fields (f : Peer R → Peer R) : Prop :=
  ∀ p, Peer.PeerId (f p) = Peer.PeerId p
       ∧ Peer.Attempts (f p) = Peer.Attempts p
       ∧ Peer.Attempted (f p) = Peer.Attempted p.

Definition well_behaved (op : AttemptOp) : Prop :=
  match op with
  | NegAttempt _ fn => keeps_attempt_fields fn
  | PosAttempt => True
  end.

(** A method or a callback that leaves the identity of the peer as it
    is, whatever it does to the other fields. *)
Definition keeps_id (f : Peer R → Peer R) : Prop :=
  ∀ p, Peer.PeerId (f p) = Peer.PeerId p.

Definition keeps_peer_id (op : AttemptOp) : Prop :=
  match op with
  | NegAttempt _ fn => keeps_id fn
  | PosAttempt => True
  end.

(** The invariants of the attempt fields as the specification words
    them, for every sequence of attempts on a stored peer and with no
    condition on the callbacks: after [ops2] more attempts the counter has
    grown by one for each, so it never decreases, and after every attempt
    a peer that succeeded has been attempted. *)
Definition attempts_as_specified (c : PeerStore R) (id : string) : Prop :=
  ∀ p (ops1 ops2 : list AttemptOp),
    Load (Storage c) id = Some p →
    ∃ p1 p2,
      Load (Storage (attempts c id ops1)) id = Some p1
      ∧ Load (Storage (attempts c id (ops1 ++ ops2))) id = Some p2
      ∧ Peer.Attempts p2 = (Peer.Attempts p1 + N.of_nat (length ops2))%N
      ∧ (Peer.Attempts p1 ≤ Peer.Attempts p2)%N
      ∧ (ops1 ≠ [] → Peer.Succeed p1 = true → Peer.Attempted p1 = true).

(** Every peer is stored under its own id: [StorePeer] and
    [StoreOrUpdatePeer] write a peer under [peer.PeerId]. *)
Definition consistent (c : PeerStore R) : Prop :=
  ∀ key p, Load (Storage c) key = Some p → Peer.PeerId p = key.

(** [ConnectionEvent]; [now] is the value of [time.Now()]. *)
Definition ConnectionEvent (now : Time) (c : PeerStore R) (peerId : string)
           (direction : string) : option error * PeerStore R :=
  match GetPeerData c peerId with
  | inr _ => (Some ("could not add connection event, peer is not in the list: " +:+ peerId), c)
  | inl peer => (None, StorePeer c (Peer.ConnectionEvent peer direction now))
  end.

(** [DisconnectionEvent] *)
Definition DisconnectionEvent (now : Time) (c : PeerStore R) (peerId : string)
  : option error * PeerStore R :=
  match GetPeerData c peerId with
  | inr _ => (Some ("could not add disconnection event, peer is not in the list: " +:+ peerId), c)
  | inl peer => (None, StorePeer c (Peer.DisconnectionEvent peer now))
  end.

(** [MetadataEvent] *)
Definition MetadataEvent (c : PeerStore R) (peerId : string) (success : bool)
  : option error * PeerStore R :=
  match GetPeerData c peerId with
  | inr _ => (Some ("could not add metadata event, peer is not in the list: " +:+ peerId), c)
  | inl peer =>
      let peer := Peer.set_MetadataRequest true peer in
      let peer := if success then Peer.set_MetadataSucceed true peer else peer in
      (None, StorePeer c peer)
  end.

(** [ConnectionAttemptEvent] *)
Definition ConnectionAttemptEvent (c : PeerStore R) (peerId : string) (succeed : bool)
           (conErr : string) : option error * PeerStore R :=
  match GetPeerData c peerId with
  | inr _ => (Some ("could not add connection attempt, peer is not in the list: " +:+ peerId), c)
  | inl peer => (None, StorePeer c (Peer.ConnectionAttemptEvent peer succeed conErr))
  end.

(** [MessageEvent] *)
Definition MessageEvent (now : Time) (c : PeerStore R) (peerId : string)
           (topicName : string) : option error * PeerStore R :=
  match GetPeerData c peerId with
  | inr _ => (Some ("could not add message event, peer is not in the list: " +:+ peerId), c)
  | inl peer => (None, StorePeer c (Peer.MessageEvent peer topicName now))
  end.

(** [GetErrorCounter]: a map to [uint64]; [++] on a missing key starts
    from zero and wraps at 2^64. *)
Definition GetErrorCounter (gm : PeerStore R) : gmap string N :=
  Range (Storage gm)
        (fun _ value (errorsAndAmount : gmap string N) =>
           (<[Peer.Error value :=
                ((default 0%N (errorsAndAmount !! Peer.Error value) + 1) mod 2 ^ 64)%N]>
              errorsAndAmount, true))
        ∅.

(** The step of [GetErrorCounter] on one entry of the store. *)
Definition count_error (acc : gmap string N) (kv : string * Peer R) : gmap string N :=
  <[Peer.Error kv.2 := ((default 0%N (acc !! Peer.Error kv.2) + 1) mod 2 ^ 64)%N]> acc.

(** [NewPeerstoreIteration] *)
Definition NewPeerstoreIteration (c : PeerStore R) (t : Duration) : PeerStore R :=
  {| Storage := Storage c; StartTime := StartTime c;
     PeerstoreIterTime := t; MsgNotChannels := MsgNotChannels c |}.

(** [AddNotChannel] *)
Definition AddNotChannel (c : PeerStore R) (topicName : string) : PeerStore R :=
  {| Storage := Storage c; StartTime := StartTime c;
     PeerstoreIterTime := PeerstoreIterTime c;
     MsgNotChannels := <[topicName := []]> (MsgNotChannels c) |}.

(** A sequence of metadata events on one peer, by their outcomes. *)
Definition metadata_events (c : PeerStore R) (peerId : string) (outcomes : list bool)
  : PeerStore R :=
  fold_left (fun c success => snd (MetadataEvent c peerId success)) outcomes c.

(** [errors.Wrap]: the message, a colon and the cause; [nil] stays [nil]. *)
Definition Wrap (err : option error) (message : string) : option error :=
  (fun cause => message +:+ ": " +:+ cause) <$> err.

(** The first line of the export. *)
Definition csv_titles : string :=
  "Peer Id,Node Id,User Agent,Client,Version,Pubkey,Address,Ip,Country,City,Request Metadata,Success Metadata,Attempted,Succeed,ConnStablished,IsConnected,Attempts,Error,Latency,Connections,Disconnections,Connected Time,Beacon Blocks,Beacon Aggregations,Voluntary Exits,Proposer Slashings,Attester Slashings,Total Messages"
  +:+ String (ascii_of_nat 10) EmptyString.

(** [ExportToCSV]. The file system is what the function meets of it:
    [Create] is the error of [os.Create] on the path ([None] when the file
    opens) and [WriteString n text] the error of the write of [text] that
    comes after [n] earlier writes to the file; [ToCsvLine] is the method of
    the peer, whose body is not among the sources. The result is the error
    returned and the texts given to [WriteString], in order. *)
Variable ToCsvLine : Peer R → string.
Variable Create : string → option error.
Variable WriteString : nat → string → option error.

Definition ExportToCSV (c : PeerStore R) (filePath : string)
  : option error * list string :=
  match Create filePath with
  | Some err => (Wrap (Some err) ("error opening the file " +:+ filePath), [])
  | None =>
      let err := WriteString 0 csv_titles in
      let _ := Wrap err ("error while writing the titles on the csv " +:+ filePath) in
      let err : option error := None in
      let '(err, texts) :=
        Range (Storage c)
              (fun _ value '(_, texts) =>
                 ((WriteString (length texts) (ToCsvLine value),
                   texts ++ [ToCsvLine value]), true))
              (err, [csv_titles]) in
      match err with
      | Some e => (Wrap (Some e) "could not export peer metrics", texts)
      | None => (None, texts)
      end
  end.
End Operations.

End PeerStore.

(** A concrete peer, to run the store on examples. *)
Module PeerModel.

(** Modelled from the spec: the part of a peer record that the store does
    not read (the connection episodes, the message counters per topic and
    the log of negative attempts), and the methods of the record whose
    bodies are not among the sources, as the data model and the operations
    of the store describe them. The classifier keeps a string that names
    a kind of the error taxonomy and maps any other to [unknown]. *)
Record Dynamic := {
  ConnectionEvents : list (string * Time);
  DisconnectionEvents : list Time;
  MessageCounters : gmap string N;
  LastMessage : gmap string Time;
  NegativeConnAttempts : list string
}.

Definition no_events : Dynamic :=
  {| ConnectionEvents := []; DisconnectionEvents := []; MessageCounters := ∅;
     LastMessage := ∅; NegativeConnAttempts := [] |}.

Definition taxonomy : list string :=
  ["dial-timeout"; "connection-refused"; "no-route"; "network-unreachable";
   "reset-by-peer"; "i/o-deadline"; "protocol-not-supported"; "peer-id-mismatch";
   "no-addresses"; "unknown"].

Definition classify (s : string) : string :=
  if existsb (String.eqb s) taxonomy then s else "unknown".

Definition with_Rest (p : Peer.t Dynamic) (r : Dynamic) : Peer.t Dynamic :=
  Peer.Make (Peer.PeerId p) (Peer.MetadataRequest p) (Peer.MetadataSucceed p)
            (Peer.Attempted p) (Peer.Succeed p) (Peer.Attempts p) (Peer.Error p) r.

#[export] Instance methods : Peer.Methods Dynamic := {
  Peer.ConnectionEvent p direction now :=
    with_Rest p {| ConnectionEvents := ConnectionEvents (Peer.Rest p) ++ [(direction, now)];
                   DisconnectionEvents := DisconnectionEvents (Peer.Rest p);
                   MessageCounters := MessageCounters (Peer.Rest p);
                   LastMessage := LastMessage (Peer.Rest p);
                   NegativeConnAttempts := NegativeConnAttempts (Peer.Rest p) |};
  Peer.DisconnectionEvent p now :=
    with_Rest p {| ConnectionEvents := ConnectionEvents (Peer.Rest p);
                   DisconnectionEvents := DisconnectionEvents (Peer.Rest p) ++ [now];
                   MessageCounters := MessageCounters (Peer.Rest p);
                   LastMessage := LastMessage (Peer.Rest p);
                   NegativeConnAttempts := NegativeConnAttempts (Peer.Rest p) |};
  Peer.ConnectionAttemptEvent p succeed conErr :=
    let p := Peer.set_Attempted true (Peer.set_Attempts (Peer.Attempts p + 1)%N p) in
    if succeed then Peer.set_Error "None" (Peer.set_Succeed true p)
    else Peer.set_Error (classify conErr) p;
  Peer.MessageEvent p topicName now :=
    with_Rest p {| ConnectionEvents := ConnectionEvents (Peer.Rest p);
                   DisconnectionEvents := DisconnectionEvents (Peer.Rest p);
                   MessageCounters :=
                     <[topicName := (default 0%N (MessageCounters (Peer.Rest p) !! topicName) + 1)%N]>
                       (MessageCounters (Peer.Rest p));
                   LastMessage := <[topicName := now]> (LastMessage (Peer.Rest p));
                   NegativeConnAttempts := NegativeConnAttempts (Peer.Rest p) |};
  Peer.AddPositiveConnAttempt p :=
    with_Rest p {| ConnectionEvents := ConnectionEvents (Peer.Rest p);
                   DisconnectionEvents := DisconnectionEvents (Peer.Rest p);
                   MessageCounters := MessageCounters (Peer.Rest p);
                   LastMessage := LastMessage (Peer.Rest p);
                   NegativeConnAttempts := [] |};
  Peer.ResetDynamicMetrics p := with_Rest p no_events;
  Peer.FetchPeerInfoFromPeer old new := old;
  Peer.FilterError := classify
}.

(** A peer seen for the first time. *)
Definition new_peer (id : string) : Peer.t Dynamic :=
  Peer.Make id false false false false 0%N "" no_events.

(** A prune policy that logs the error of a failed attempt. *)
Definition log_error : PeerStore.ErrorHandling Dynamic :=
  fun p => with_Rest p {| ConnectionEvents := ConnectionEvents (Peer.Rest p);
                          DisconnectionEvents := DisconnectionEvents (Peer.Rest p);
                          MessageCounters := MessageCounters (Peer.Rest p);
                          LastMessage := LastMessage (Peer.Rest p);
                          NegativeConnAttempts :=
                            NegativeConnAttempts (Peer.Rest p) ++ [Peer.Error p] |}.

(** A prune policy that starts the attempt history of the peer again: the
    callback has the pointer to the record and may write any field. *)
Definition forget_attempts : PeerStore.ErrorHandling Dynamic :=
  fun p => Peer.set_Attempted false (Peer.set_Attempts 0%N p).

(** A memory store holding the given peers. *)
Definition memory_store (peers : list (Peer.t Dynamic)) : PeerStore.PeerStore Dynamic :=
  fold_left PeerStore.StorePeer peers
            (PeerStore.NewPeerStore "peerstore.db" (fun _ => ∅) 0 "memory" "").

End PeerModel.

(** ** Package crawler: the Filecoin crawler, its workers and its feed *)

Module Crawler.

Definition workers : nat := 100.
Definition minWaitTime : Duration := 5 * Second.

Definition Multiaddr : Type := string.

(** [peer.AddrInfo]; a peer id is kept in its text form. *)
Record AddrInfo := { ID : string; Addrs : list Multiaddr }.

(** The peer of the Filecoin database: the two fields the crawler reads. *)
Record FilecoinPeer := { PeerId : string; MAddrs : list Multiaddr }.

Definition zero_peer : FilecoinPeer := {| PeerId := ""; MAddrs := [] |}.

(** Modelled from the spec: the kinds of connection errors (the error
    taxonomy) and the ones the prune policy calls transient (timeouts and
    resets). The classifier of error strings is not among the sources, so
    an error of the host carries its kind next to its message. *)
Inductive ErrorKind :=
| DialTimeout | ConnectionRefused | NoRoute | ResetByPeer | IoDeadline
| ProtocolNotSupported | PeerIdMismatch | NoAddresses | Unknown.


Record HostError := { kind : ErrorKind; message : string }.

(** The operations of [postgresql.PostgresDBService] that the crawler
    calls; their bodies are not among the sources. *)
Class FilecoinDB (D : Type) := {
  GetFilecoinPeers : D → list string;
  LoadFilecoinPeer : D → string → option FilecoinPeer;
  StoreFilecoinPeer : D → string → FilecoinPeer → D
}.

(** Modelled from the spec: a store that is a mapping from peer identity
    to peer record, used where a concrete database is needed. *)
Definition map_db : FilecoinDB (gmap string FilecoinPeer) := {|
  GetFilecoinPeers m := (map_to_list m).*1;
  LoadFilecoinPeer m pid := m !! pid;
  StoreFilecoinPeer m pid p := <[pid := p]> m
|}.

(** What a goroutine does besides changing the state below. *)
Inductive Event :=
| EvSleep (d : Duration)
| EvReqNextPeer
| EvSend (pid : string)
| EvReceive (pid : string)
| EvReceiveZero
| EvRefresh
| EvConnect (pi : AddrInfo)
| EvFetchNeighbors (pi : AddrInfo).

(** [discoveredPeers]. The blacklist is a [sync.Map] from peer id to the
    empty struct; a buffered channel is the queue of what it holds, of
    capacity [workers]. *)
Record discoveredPeers := {
  pArray : list string;
  blacklist : gmap string ();
  nPeerChan : list string;
  nPeerReq : nat
}.

Definition with_pArray (d : discoveredPeers) (a : list string) : discoveredPeers :=
  {| pArray := a; blacklist := blacklist d; nPeerChan := nPeerChan d; nPeerReq := nPeerReq d |}.
Definition with_blacklist (d : discoveredPeers) (b : gmap string ()) : discoveredPeers :=
  {| pArray := pArray d; blacklist := b; nPeerChan := nPeerChan d; nPeerReq := nPeerReq d |}.
Definition with_nPeerChan (d : discoveredPeers) (c : list string) : discoveredPeers :=
  {| pArray := pArray d; blacklist := blacklist d; nPeerChan := c; nPeerReq := nPeerReq d |}.
Definition with_nPeerReq (d : discoveredPeers) (n : nat) : discoveredPeers :=
  {| pArray := pArray d; blacklist := blacklist d; nPeerChan := nPeerChan d; nPeerReq := n |}.

(** [d.nPeerChan <- pid]: [None] when the send has to wait for room. *)
Definition send_peer (d : discoveredPeers) (pid : string) : option discoveredPeers :=
  if (length (nPeerChan d) <? workers)%nat
  then Some (with_nPeerChan d (nPeerChan d ++ [pid]))
  else None.

(** [ReqNextPeer]: [d.nPeerReq <- struct{}{}]. *)
Definition ReqNextPeer (d : discoveredPeers) : option discoveredPeers :=
  if (nPeerReq d <? workers)%nat
  then Some (with_nPeerReq d (S (nPeerReq d)))
  else None.

(** [Blacklist] *)
Definition Blacklist (d : discoveredPeers) (peerID : string) : discoveredPeers :=
  with_blacklist d (<[peerID := ()]> (blacklist d)).

(** [isBlacklisted] *)
Definition isBlacklisted (d : discoveredPeers) (peerID : string) : bool :=
  match blacklist d !! peerID with
  | Some _ => true
  | None => false
  end.

(** The result of one iteration of a goroutine that may wait on a channel
    or panic. *)
Inductive outcome (A : Type) :=
| Done (a : A)
| Blocked
| Panic.
Arguments Done {A}.
Arguments Blocked {A}.
Arguments Panic {A}.

(** The local variables of [Run] with the receiver. *)
Record feeder := { dp : discoveredPeers; pointer : nat; refreshFlag : bool }.

Section Feed.
Context {D : Type} {DB : FilecoinDB D}.

(** [refreshPeerList] *)
Definition refreshPeerList (db : D) (d : discoveredPeers) : discoveredPeers :=
  fold_left
    (fun d pID =>
       match LoadFilecoinPeer db pID with
       | None => d
       | Some _ => with_pArray d (pArray d ++ [pID])
       end)
    (GetFilecoinPeers db) d.

(** The test of the loop of [refreshPeerList]: the peer loads. *)
Definition loadable (db : D) (pID : string) : bool :=
  if LoadFilecoinPeer db pID is Some _ then true else false.

(** [NewDiscoveryPeers] *)
Definition NewDiscoveryPeers (db : D) : discoveredPeers :=
  refreshPeerList db {| pArray := []; blacklist := ∅; nPeerChan := []; nPeerReq := 0 |}.

(** The end of the request case of [Run]: the refresh test. *)
Definition refresh_check (db : D) (f : feeder) (evs : list Event)
  : outcome (feeder * list Event) :=
  if refreshFlag f || (length (pArray (dp f)) <=? pointer f)%nat
  then Done ({| dp := refreshPeerList db (dp f); pointer := pointer f;
                refreshFlag := refreshFlag f |}, evs ++ [EvRefresh])
  else Done (f, evs).

(** The request case of [Run], [case <-d.nPeerReq], once the request has
    been received. *)
Definition on_request (db : D) (f : feeder) : outcome (feeder * list Event) :=
  let d := dp f in
  if negb (length (pArray d) =? 0)%nat then
    match pArray d !! pointer f with
    | None => Panic
    | Some pid =>
        let pointer' := S (pointer f) in
        if isBlacklisted d pid then
          match ReqNextPeer d with
          | None => Blocked
          | Some d' => Done ({| dp := d'; pointer := pointer'; refreshFlag := refreshFlag f |},
                             [EvReqNextPeer])
          end
        else
          match send_peer d pid with
          | None => Blocked
          | Some d' => refresh_check db {| dp := d'; pointer := pointer';
                                           refreshFlag := refreshFlag f |} [EvSend pid]
          end
    end
  else
    match ReqNextPeer d with
    | None => Blocked
    | Some d' => refresh_check db {| dp := d'; pointer := pointer f; refreshFlag := true |}
                               [EvSleep minWaitTime; EvReqNextPeer]
    end.

Definition with_dp (f : feeder) (d : discoveredPeers) : feeder :=
  {| dp := d; pointer := pointer f; refreshFlag := refreshFlag f |}.

(** Where the feeder goroutine of [Run] stands: at its [select], or
    inside the request case before one of its accesses to what it shares
    with the workers: the look-up in the blacklist, a send on one of the
    two channels, a query of the database. The array, the cursor and the
    flag are the feeder's own. *)
Inductive Pc :=
| AtSelect
| AtTest (pid : string)
| AtRequeue
| AtSend (pid : string)
| AtWait
| AtRefresh
| AtLoad (peers : list string).

(** The refresh test at the end of the request case. *)
Definition after_serving (f : feeder) : Pc :=
  if refreshFlag f || (length (pArray (dp f)) <=? pointer f)%nat
  then AtRefresh else AtSelect.

(** One move of the feeder: the statements of the request case of [Run]
    from where the feeder stands up to its next access to shared state.
    At the [select] the request has just been received: the entry under
    the cursor is read and the cursor advanced; then [isBlacklisted] is
    called; then the request is put back or the entry sent; on an empty
    array the feeder sleeps, re-issues the request and raises the flag;
    [refreshPeerList] queries the list of peers and then loads them one by
    one. *)
Definition feeder_step (db : D) (f : feeder) (at_ : Pc)
  : outcome (feeder * Pc * list Event) :=
  let d := dp f in
  match at_ with
  | AtSelect =>
      if negb (length (pArray d) =? 0)%nat then
        match pArray d !! pointer f with
        | None => Panic
        | Some pid =>
            Done ({| dp := d; pointer := S (pointer f); refreshFlag := refreshFlag f |},
                  AtTest pid, [])
        end
      else Done (f, AtWait, [])
  | AtTest pid =>
      Done (f, if isBlacklisted d pid then AtRequeue else AtSend pid, [])
  | AtRequeue =>
      match ReqNextPeer d with
      | None => Blocked
      | Some d' => Done (with_dp f d', AtSelect, [EvReqNextPeer])
      end
  | AtSend pid =>
      match send_peer d pid with
      | None => Blocked
      | Some d' => Done (with_dp f d', after_serving (with_dp f d'), [EvSend pid])
      end
  | AtWait =>
      match ReqNextPeer d with
      | None => Blocked
      | Some d' =>
          let f' := {| dp := d'; pointer := pointer f; refreshFlag := true |} in
          Done (f', after_serving f', [EvSleep minWaitTime; EvReqNextPeer])
      end
  | AtRefresh => Done (f, AtLoad (GetFilecoinPeers db), [EvRefresh])
  | AtLoad [] => Done (f, AtSelect, [])
  | AtLoad (pID :: peers) =>
      Done (match LoadFilecoinPeer db pID with
            | None => f
            | Some _ => with_dp f (with_pArray d (pArray d ++ [pID]))
            end, AtLoad peers, [])
  end.

(** The crawler as a transition system. The feeder goroutine of [Run]
    and the workers run side by side and every action below is one access
    to the state they share, so that the workers' calls interleave with
    the statements of the feeder: a worker can call [Blacklist] after the
    feeder has tested an entry and before it sends it. The workers act on
    the feed through [Blacklist], [ReqNextPeer] and the output channel,
    and on the database through [StoreFilecoinPeer]. Once the context is
    done the feeder, at its [select], has closed its channels and
    returned: a receive yields what the output channel still holds and
    then the zero value, and a send on the request channel panics. A panic
    ends the program. *)
Inductive Status := Running | Stopped | Panicked.

Record system := { db : D; feed : feeder; pc : Pc; status : Status }.

Inductive Action :=
| FeedRequest
| FeedContinue
| FeedDone
| WorkerBlacklist (pid : string)
| WorkerReqNextPeer
| WorkerReceive
| WorkerStore (pid : string) (p : FilecoinPeer).

(** The feeder moves from where it stands, its state being [f]. *)
Definition feeder_move (s : system) (f : feeder) : option (system * list Event) :=
  match feeder_step (db s) f (pc s) with
  | Done (f', pc', evs) =>
      Some ({| db := db s; feed := f'; pc := pc'; status := Running |}, evs)
  | Blocked => None
  | Panic => Some ({| db := db s; feed := f; pc := pc s; status := Panicked |}, [])
  end.

(** What every worker can do to the feed and the database, whether the
    feeder runs or has returned. *)
Definition worker_step (a : Action) (s : system) : option (system * list Event) :=
  match a with
  | WorkerBlacklist pid =>
      Some ({| db := db s; feed := with_dp (feed s) (Blacklist (dp (feed s)) pid);
               pc := pc s; status := status s |}, [])
  | WorkerStore pid p =>
      Some ({| db := StoreFilecoinPeer (db s) pid p; feed := feed s;
               pc := pc s; status := status s |}, [])
  | WorkerReceive =>
      match nPeerChan (dp (feed s)) with
      | pid :: rest =>
          Some ({| db := db s;
                   feed := with_dp (feed s) (with_nPeerChan (dp (feed s)) rest);
                   pc := pc s; status := status s |}, [EvReceive pid])
      | [] =>
          match status s with
          | Stopped => Some (s, [EvReceiveZero])
          | _ => None
          end
      end
  | WorkerReqNextPeer =>
      match status s with
      | Stopped =>
          Some ({| db := db s; feed := feed s; pc := pc s; status := Panicked |}, [])
      | _ =>
          d' ← ReqNextPeer (dp (feed s));
          Some ({| db := db s; feed := with_dp (feed s) d'; pc := pc s;
                   status := status s |}, [EvReqNextPeer])
      end
  | FeedRequest | FeedContinue | FeedDone => None
  end.

Definition step (a : Action) (s : system) : option (system * list Event) :=
  match status s with
  | Panicked => None
  | Stopped => worker_step a s
  | Running =>
      match a with
      | FeedRequest =>
          match pc s, nPeerReq (dp (feed s)) with
          | AtSelect, S n =>
              feeder_move s (with_dp (feed s) (with_nPeerReq (dp (feed s)) n))
          | _, _ => None
          end
      | FeedContinue =>
          match pc s with
          | AtSelect => None
          | _ => feeder_move s (feed s)
          end
      | FeedDone =>
          match pc s with
          | AtSelect =>
              Some ({| db := db s; feed := feed s; pc := AtSelect; status := Stopped |}, [])
          | _ => None
          end
      | _ => worker_step a s
      end
  end.

(** Executions: the actions taken with the events of each. *)
Inductive exec : system → list (Action * list Event) → system → Prop :=
| exec_nil s : exec s [] s
| exec_cons s a evs s' tr s'' :
    step a s = Some (s', evs) → exec s' tr s'' → exec s ((a, evs) :: tr) s''.

(** The events of an execution, and how often an id is sent on the
    output channel and received from it. *)
Definition events (tr : list (Action * list Event)) : list Event :=
  concat (map snd tr).

Definition is_send (pid : string) (ev : Event) : bool :=
  if ev is EvSend q then String.eqb q pid else false.
Definition is_receive (pid : string) (ev : Event) : bool :=
  if ev is EvReceive q then String.eqb q pid else false.

Definition sends (tr : list (Action * list Event)) (pid : string) : nat :=
  length (List.filter (is_send pid) (events tr)).
Definition deliveries (tr : list (Action * list Event)) (pid : string) : nat :=
  length (List.filter (is_receive pid) (events tr)).

(** An execution in which the feeder alone moves. *)
Definition feeder_only (tr : list (Action * list Event)) : Prop :=
  Forall (fun x => fst x = FeedRequest ∨ fst x = FeedContinue) tr.

(** The copies of an id that are past the test of the blacklist and not
    yet with a worker: the one the feeder is about to send, and the ones
    queued on the output channel. *)
Definition pending (s : system) (pid : string) : nat :=
  if pc s is AtSend q then (if String.eqb q pid then 1 else 0)%nat else 0%nat.
Definition queued (s : system) (pid : string) : nat :=
  length (List.filter (fun q => String.eqb q pid) (nPeerChan (dp (feed s)))).
Definition in_flight (s : system) (pid : string) : nat :=
  (queued s pid + pending s pid)%nat.

(** The blacklist as the specification words it: in an execution from
    [s], once a call of [Blacklist] on an id has returned, the id is
    neither sent on the output channel nor received from it. *)
Definition blacklisted_never_emitted (s : system) : Prop :=
  ∀ tr1 pid tr2 s',
    exec s (tr1 ++ (WorkerBlacklist pid, []) :: tr2) s' →
    ¬ In (EvSend pid) (events tr2) ∧ ¬ In (EvReceive pid) (events tr2).

(** [Run] starts with the cursor at the start and the flag down. *)
Definition Run (d : discoveredPeers) : feeder :=
  {| dp := d; pointer := 0; refreshFlag := false |}.

(** A peer the database lists and can load. *)
Definition known (db : D) (pid : string) : Prop :=
  In pid (GetFilecoinPeers db) ∧ is_Some (LoadFilecoinPeer db pid).

(** The request as the specification words it, for a request that the
    feeder completes: the feed refreshes exactly when the cursor (once
    the request is served) is at or past the end of the array or the
    array is empty; a refresh rebuilds the array into the known peers
    that are not blacklisted, each once; and an empty array costs a wait
    of five seconds at least. *)
Definition request_as_specified (db : D) (f : feeder) : Prop :=
  ∀ f' evs,
    on_request db f = Done (f', evs) →
    (In EvRefresh evs ↔
       (length (pArray (dp f)) ≤ pointer f')%nat ∨ pArray (dp f) = [])
    ∧ (In EvRefresh evs →
       List.NoDup (pArray (dp f'))
       ∧ ∀ pid, In pid (pArray (dp f')) ↔
                known db pid ∧ isBlacklisted (dp f') pid = false)
    ∧ (pArray (dp f) = [] → ∃ t, In (EvSleep t) evs ∧ 5 * Second ≤ t).
End Feed.
Arguments system D : clear implicits.

Section Worker.
Context {D : Type} {DB : FilecoinDB D}.
(** The host and the libraries: [peer.Decode], [Host.Connect] ([None] on
    success), [ExtractHostInfo] and the neighbours that [fetchNeighbors]
    returns. *)
Variable peer_Decode : string → string.
Variable Connect : AddrInfo → option HostError.
Variable ExtractHostInfo : AddrInfo → FilecoinPeer.
Variable fetchNeighbors : AddrInfo → list AddrInfo.

(** One iteration of a worker of [crawlNetwork] on the peer id it
    received: the events in order, and the database and the feed after
    it, or [None] when [ReqNextPeer] has to wait for room. *)
Definition crawlNetwork_worker (pid : string) (db : D) (d : discoveredPeers)
  : list Event * option (D * discoveredPeers) :=
  let pID := peer_Decode pid in
  let p := default zero_peer (LoadFilecoinPeer db pid) in
  let maddr := {| ID := pID; Addrs := [] ++ MAddrs p |} in
  if (length (Addrs maddr) =? 0)%nat then
    ([EvSleep (1 * Second); EvReqNextPeer],
     d' ← ReqNextPeer d; Some (db, d'))
  else
    match Connect maddr with
    | Some err =>
        let d := Blacklist d pid in
        ([EvConnect maddr; EvReqNextPeer],
         d' ← ReqNextPeer d; Some (db, d'))
    | None =>
        let fpeer := ExtractHostInfo maddr in
        let db := StoreFilecoinPeer db (PeerId fpeer) fpeer in
        let neighbors := fetchNeighbors maddr in
        let db := fold_left
                    (fun db newPeer =>
                       let fpeer := ExtractHostInfo newPeer in
                       StoreFilecoinPeer db (PeerId fpeer) fpeer)
                    neighbors db in
        ([EvConnect maddr; EvFetchNeighbors maddr; EvReqNextPeer],
         d' ← ReqNextPeer d; Some (db, d'))
    end.

(** The address info a worker dials for a peer id. *)
Definition dialed (pid : string) (db : D) : AddrInfo :=
  {| ID := peer_Decode pid;
     Addrs := [] ++ MAddrs (default zero_peer (LoadFilecoinPeer db pid)) |}.

End Worker.

Section Setup.
Context {D : Type} {DB : FilecoinDB D}.
Variable ExtractHostInfo : AddrInfo → FilecoinPeer.

(** The start of [crawlNetwork]: the feed is made from the database as it
    is found, and then the bootstrap nodes (here as the address infos
    parsed from their multi-addresses) are stored, each under its id; the
    feeder starts with no request pending. *)
Definition crawlNetwork_setup (bootstrapNodes : list AddrInfo) (db0 : D) : system D :=
  let connectablePeers := NewDiscoveryPeers db0 in
  let db := fold_left
              (fun db peerInfo =>
                 let p := ExtractHostInfo peerInfo in
                 StoreFilecoinPeer db (ID peerInfo) p)
              bootstrapNodes db0 in
  {| db := db; feed := Run connectablePeers; pc := AtSelect; status := Running |}.
End Setup.

(** An execution by its actions alone: the states and events follow. *)
Fixpoint run {D : Type} {DB : FilecoinDB D} (acts : list Action) (s : system D)
  : option (list (Action * list Event) * system D) :=
  match acts with
  | [] => Some ([], s)
  | a :: acts' =>
      '(s', evs) ← step a s;
      '(tr, s'') ← run acts' s';
      Some ((a, evs) :: tr, s'')
  end.

End Crawler.

(** Inputs that the examples below run the crawler on. *)
Module Sample.
Import Crawler.
#[local] Existing Instance map_db.

Definition addr1 : Multiaddr := "/ip4/3.224.142.21/tcp/1347".
Definition addr2 : Multiaddr := "/ip4/107.23.112.60/tcp/1347".

(** A database of two peers with an address each and one without. *)
Definition db3 : gmap string FilecoinPeer :=
  <["P1" := {| PeerId := "P1"; MAddrs := [addr1] |}]>
    (<["P2" := {| PeerId := "P2"; MAddrs := [addr2] |}]>
       (<["P3" := {| PeerId := "P3"; MAddrs := [] |}]> ∅)).

(** A database of one peer. *)
Definition db1 : gmap string FilecoinPeer :=
  {[ "P1" := {| PeerId := "P1"; MAddrs := [addr1] |} ]}.

Definition feed_of (a : list string) (requests : nat) : discoveredPeers :=
  {| pArray := a; blacklist := ∅; nPeerChan := []; nPeerReq := requests |}.

Definition open_host (pi : AddrInfo) : option HostError := None.
Definition host_info (pi : AddrInfo) : FilecoinPeer :=
  {| PeerId := ID pi; MAddrs := Addrs pi |}.
Definition decode (pid : string) : string := pid.

(** A host whose every peer knows the one neighbour [P2]. *)
Definition one_neighbor (pi : AddrInfo) : list AddrInfo :=
  [{| ID := "P2"; Addrs := [addr2] |}].

Definition start : system (gmap string FilecoinPeer) :=
  {| db := db3; feed := Run (feed_of ["P1"; "P2"; "P3"] 2); pc := AtSelect;
     status := Running |}.

(** A run from [start]: a request is served, a worker takes the id and
    blacklists it; and the state the run ends in. *)
Definition trace : list (Action * list Event) :=
  [(FeedRequest, []); (FeedContinue, []); (FeedContinue, [EvSend "P1"]);
   (WorkerReceive, [EvReceive "P1"]); (WorkerBlacklist "P1", [])].
Definition after_trace : system (gmap string FilecoinPeer) :=
  {| db := db3;
     feed := {| dp := {| pArray := ["P1"; "P2"; "P3"];
                         blacklist := <["P1" := ()]> ∅;
                         nPeerChan := []; nPeerReq := 1 |};
                pointer := 1; refreshFlag := false |};
     pc := AtSelect; status := Running |}.

(** The feed of one peer with two requests pending, and a run of it: the
    peer is sent and received, the refresh appends it to the array again,
    the second request reads that entry and the feeder tests it; the worker
    that had received the peer blacklists it; the feeder then sends the
    entry it has tested, and a worker receives it. *)
Definition start_one : system (gmap string FilecoinPeer) :=
  {| db := db1; feed := Run (feed_of ["P1"] 2); pc := AtSelect; status := Running |}.

Definition race : list Action :=
  [FeedRequest; FeedContinue; FeedContinue; FeedContinue; FeedContinue; FeedContinue;
   WorkerReceive;
   FeedRequest; FeedContinue;
   WorkerBlacklist "P1";
   FeedContinue; WorkerReceive].

(** The state of that run when [Blacklist] has returned, the end of the
    run from there, and the state it ends in. *)
Definition blacklisted_in_flight : system (gmap string FilecoinPeer) :=
  {| db := db1;
     feed := {| dp := {| pArray := ["P1"; "P1"]; blacklist := <["P1" := ()]> ∅;
                         nPeerChan := []; nPeerReq := 0 |};
                pointer := 2; refreshFlag := false |};
     pc := AtSend "P1"; status := Running |}.

Definition race_end : list (Action * list Event) :=
  [(FeedContinue, [EvSend "P1"]); (WorkerReceive, [EvReceive "P1"])].

Definition drained : system (gmap string FilecoinPeer) :=
  {| db := db1;
     feed := {| dp := {| pArray := ["P1"; "P1"]; blacklist := <["P1" := ()]> ∅;
                         nPeerChan := []; nPeerReq := 0 |};
                pointer := 2; refreshFlag := false |};
     pc := AtRefresh; status := Running |}.

End Sample.

(** Bytes in hexadecimal, to read digests. *)
Definition hex (bs : list byte) : string :=
  let digit (n : Z) := match String.get (Z.to_nat n) "0123456789abcdef" with
                       | Some c => c | None => "?"%char end in
  fold_right (fun b acc => String (digit (Bytes.u b / 16)) (String (digit (Bytes.u b mod 16)) acc))
             EmptyString bs.


(** * Properties *)

(** ** Bytes and bits *)

Module BytesFacts.
Import Bytes.

Lemma u_range (b : byte) : 0 ≤ u b < 256.
Proof.
  unfold u. pose proof (Byte.to_N_bounded b). lia.
Qed.

Lemma trunc_mod (z : Z) (b : byte) : z mod 256 = u b → trunc z = b.
Proof.
  intros Hz. unfold trunc.
  change 255 with (Z.ones 8). rewrite Z.land_ones by lia.
  change (2 ^ 8) with 256. rewrite Hz. unfold u.
  rewrite N2Z.id, Byte.of_to_N. reflexivity.
Qed.

Lemma trunc_u (b : byte) : trunc (u b) = b.
Proof.
  apply trunc_mod. pose proof (u_range b). apply Z.mod_small. lia.
Qed.

(** Bits that do not overlap: [|] is [+]. *)
Lemma lor_disjoint (k a b : Z) :
  0 ≤ k → a mod 2 ^ k = 0 → 0 ≤ b < 2 ^ k → Z.lor a b = a + b.
Proof.
  intros Hk Ha Hb. symmetry. apply Z.add_nocarry_lor.
  apply Z.bits_inj'. intros n Hn.
  rewrite Z.land_spec, Z.bits_0.
  destruct (Z.lt_ge_cases n k) as [Hlt | Hge].
  - rewrite <- (Z.mod_pow2_bits_low a k n Hlt), Ha, Z.bits_0. reflexivity.
  - rewrite <- (Z.mod_small b (2 ^ k)) by lia.
    rewrite Z.mod_pow2_bits_high by lia. apply andb_false_r.
Qed.
End BytesFacts.

(** ** Base64: the encoder loses nothing and pads *)

Module Base64Facts.
Import Bytes BytesFacts Base64.

(** The 24-bit group of three bytes, in arithmetic. *)
Lemma group3 (x0 x1 x2 : Z) :
  0 ≤ x0 < 256 → 0 ≤ x1 < 256 → 0 ≤ x2 < 256 →
  Z.lor (Z.lor (Z.shiftl x0 16) (Z.shiftl x1 8)) x2 = 65536 * x0 + 256 * x1 + x2.
Proof.
  intros H0 H1 H2. rewrite !Z.shiftl_mul_pow2 by lia.
  rewrite (lor_disjoint 16 (x0 * 2 ^ 16) (x1 * 2 ^ 8)); try lia.
  - rewrite (lor_disjoint 8); try lia.
    change (2 ^ 16) with (256 * 2 ^ 8).
    rewrite Z.mul_assoc, <- Z.mul_add_distr_r. apply Z.mod_mul. lia.
  - apply Z.mod_mul. lia.
Qed.

Lemma group4 (s0 s1 s2 s3 : Z) :
  0 ≤ s0 < 64 → 0 ≤ s1 < 64 → 0 ≤ s2 < 64 → 0 ≤ s3 < 64 →
  Z.lor (Z.lor (Z.lor (Z.shiftl s0 18) (Z.shiftl s1 12)) (Z.shiftl s2 6)) s3
  = 262144 * s0 + 4096 * s1 + 64 * s2 + s3.
Proof.
  intros H0 H1 H2 H3. rewrite !Z.shiftl_mul_pow2 by lia.
  rewrite (lor_disjoint 18 (s0 * 2 ^ 18) (s1 * 2 ^ 12)); try lia.
  - rewrite (lor_disjoint 12 _ (s2 * 2 ^ 6)); try lia.
    + rewrite (lor_disjoint 6); try lia.
      change (2 ^ 18) with (4096 * 2 ^ 6). change (2 ^ 12) with (64 * 2 ^ 6).
      rewrite !Z.mul_assoc, <- !Z.mul_add_distr_r. apply Z.mod_mul. lia.
    + change (2 ^ 18) with (64 * 2 ^ 12).
      rewrite Z.mul_assoc, <- Z.mul_add_distr_r. apply Z.mod_mul. lia.
  - apply Z.mod_mul. lia.
Qed.

Lemma sextet_of (v k : Z) : 0 ≤ k → Z.land (Z.shiftr v k) 63 = (v / 2 ^ k) mod 64.
Proof.
  intros Hk. rewrite Z.shiftr_div_pow2 by lia.
  change 63 with (Z.ones 6). rewrite Z.land_ones by lia. reflexivity.
Qed.

Lemma sextet_range (v k : Z) : 0 ≤ Z.land (Z.shiftr v k) 63 < 64.
Proof.
  change 63 with (Z.ones 6). rewrite Z.land_ones by lia.
  apply Z.mod_pos_bound. lia.
Qed.
Lemma alphabet_ok_sextet (enc : Encoding) (s : Z) :
  alphabet_ok enc = true → 0 ≤ s < 64 →
  sextet enc (char_at enc s) = Some s ∧ is_pad enc (char_at enc s) = false.
Proof.
  intros Hok Hs. unfold alphabet_ok in Hok.
  rewrite forallb_forall in Hok.
  specialize (Hok (Z.to_nat s)).
  rewrite Z2Nat.id in Hok by lia.
  assert (Hin : In (Z.to_nat s) (seq 0 64)) by (apply in_seq; lia).
  specialize (Hok Hin). cbv zeta in Hok.
  destruct (sextet enc (char_at enc s)) as [s'|]; [|discriminate].
  apply andb_true_iff in Hok as [Heq Hpad].
  apply Z.eqb_eq in Heq. subst s'.
  split; [reflexivity|]. now apply negb_true_iff.
Qed.

Lemma list_ind3 {A : Type} (P : list A → Prop) :
  P [] → (∀ a, P [a]) → (∀ a b, P [a; b]) →
  (∀ a b c l, P l → P (a :: b :: c :: l)) → ∀ l, P l.
Proof.
  intros H0 H1 H2 H3. fix IH 1.
  intros [|a [|b [|c l]]]; [exact H0 | apply H1 | apply H2 | apply H3, IH].
Qed.

Lemma is_pad_padChar (enc : Encoding) (p : ascii) :
  padChar enc = Some p → is_pad enc p = true.
Proof. intros Hp. unfold is_pad. rewrite Hp. apply Ascii.eqb_refl. Qed.

Theorem DecodeString_EncodeToString (enc : Encoding) (src : list byte) :
  alphabet_ok enc = true → is_Some (padChar enc) →
  DecodeString enc (EncodeToString enc src) = Some src.
Proof.
  intros Hok [p Hp]. pose proof (is_pad_padChar enc p Hp) as Hpp.
  induction src as [|b0|b0 b1|b0 b1 b2 rest IH] using list_ind3.
  - reflexivity.
  - pose proof (u_range b0) as R0.
    cbn [EncodeToString]. unfold with_pad. rewrite Hp. cbn [repeat_char].
    cbn [DecodeString].
    destruct (alphabet_ok_sextet enc _ Hok (sextet_range (Z.shiftl (u b0) 16) 18)) as [-> _].
    destruct (alphabet_ok_sextet enc _ Hok (sextet_range (Z.shiftl (u b0) 16) 12)) as [-> _].
    cbn [mbind option_bind]. rewrite Hpp. cbn [andb].
    f_equal. f_equal.
    pose proof (group4 _ _ 0 0 (sextet_range (Z.shiftl (u b0) 16) 18)
                       (sextet_range (Z.shiftl (u b0) 16) 12)) as G.
    change (Z.shiftl 0 6) with 0 in G. rewrite !Z.lor_0_r in G.
    rewrite G by lia. clear G.
    rewrite !sextet_of by lia. rewrite !Z.shiftr_div_pow2, !Z.shiftl_mul_pow2 by lia.
    apply trunc_mod.
    change (2 ^ 16) with 65536. change (2 ^ 18) with 262144. change (2 ^ 12) with 4096.
    Z.div_mod_to_equations. lia.
  - pose proof (u_range b0) as R0. pose proof (u_range b1) as R1.
    cbn [EncodeToString]. unfold with_pad. rewrite Hp. cbn [repeat_char].
    cbn [DecodeString].
    pose proof (group3 (u b0) (u b1) 0 R0 R1 ltac:(lia)) as V.
    rewrite Z.lor_0_r in V.
    set (val := Z.lor (Z.shiftl (u b0) 16) (Z.shiftl (u b1) 8)) in *.
    destruct (alphabet_ok_sextet enc _ Hok (sextet_range val 18)) as [-> _].
    destruct (alphabet_ok_sextet enc _ Hok (sextet_range val 12)) as [-> _].
    destruct (alphabet_ok_sextet enc _ Hok (sextet_range val 6)) as [-> ->].
    cbn [mbind option_bind]. rewrite Hpp.
    pose proof (group4 _ _ _ 0 (sextet_range val 18) (sextet_range val 12)
                       (sextet_range val 6)) as G.
    rewrite Z.lor_0_r in G. rewrite G by lia. clear G.
    rewrite !sextet_of by lia. rewrite !Z.shiftr_div_pow2 by lia.
    rewrite V. clear val V.
    change (2 ^ 16) with 65536. change (2 ^ 18) with 262144. change (2 ^ 12) with 4096.
    change (2 ^ 6) with 64. change (2 ^ 8) with 256.
    f_equal. f_equal; [|f_equal]; apply trunc_mod; Z.div_mod_to_equations; lia.
  - pose proof (u_range b0) as R0. pose proof (u_range b1) as R1.
    pose proof (u_range b2) as R2.
    cbn [EncodeToString DecodeString].
    pose proof (group3 (u b0) (u b1) (u b2) R0 R1 R2) as V.
    set (val := Z.lor (Z.lor (Z.shiftl (u b0) 16) (Z.shiftl (u b1) 8)) (u b2)) in *.
    assert (Hlast : Z.land val 63 = Z.land (Z.shiftr val 0) 63) by (now rewrite Z.shiftr_0_r).
    rewrite Hlast.
    destruct (alphabet_ok_sextet enc _ Hok (sextet_range val 18)) as [-> _].
    destruct (alphabet_ok_sextet enc _ Hok (sextet_range val 12)) as [-> _].
    destruct (alphabet_ok_sextet enc _ Hok (sextet_range val 6)) as [-> ->].
    destruct (alphabet_ok_sextet enc _ Hok (sextet_range val 0)) as [-> ->].
    cbn [mbind option_bind]. rewrite IH. cbn [mbind option_bind].
    rewrite group4 by apply sextet_range.
    rewrite !sextet_of by lia. rewrite !Z.shiftr_div_pow2 by lia.
    rewrite V. clear Hlast val V.
    change (2 ^ 16) with 65536. change (2 ^ 18) with 262144. change (2 ^ 12) with 4096.
    change (2 ^ 6) with 64. change (2 ^ 8) with 256. change (2 ^ 0) with 1.
    f_equal. f_equal; [|f_equal; [|f_equal]]; apply trunc_mod; Z.div_mod_to_equations; lia.
Qed.

Lemma URLEncoding_ok : alphabet_ok URLEncoding = true.
Proof. vm_compute. reflexivity. Qed.
Lemma EncodeToString_length (enc : Encoding) (src : list byte) :
  is_Some (padChar enc) →
  String.length (EncodeToString enc src) = EncodedLen enc (length src).
Proof.
  intros [p Hp]. unfold EncodedLen. rewrite Hp.
  induction src as [|b0|b0 b1|b0 b1 b2 rest IH] using list_ind3.
  - reflexivity.
  - cbn [EncodeToString]. unfold with_pad. rewrite Hp. reflexivity.
  - cbn [EncodeToString]. unfold with_pad. rewrite Hp. reflexivity.
  - cbn [EncodeToString String.length length]. rewrite IH.
    replace (S (S (S (length rest))) + 2)%nat with ((length rest + 2) + 1 * 3)%nat by lia.
    rewrite Nat.div_add by lia. lia.
Qed.

Lemma index_from_In (c : ascii) (alphabet : string) (i j : Z) :
  index_from i c alphabet = Some j → In c (list_ascii_of_string alphabet).
Proof.
  revert i. induction alphabet as [|a rest IH]; intros i; cbn [index_from].
  - discriminate.
  - destruct (Ascii.eqb a c) eqn:E.
    + apply Ascii.eqb_eq in E. subst. intros _. now left.
    + intros H. right. eapply IH, H.
Qed.

Lemma char_at_alphabet (enc : Encoding) (s : Z) :
  alphabet_ok enc = true → 0 ≤ s < 64 →
  In (char_at enc s) (list_ascii_of_string (encode enc)).
Proof.
  intros Hok Hs. destruct (alphabet_ok_sextet enc s Hok Hs) as [H _].
  eapply index_from_In, H.
Qed.

Lemma EncodeToString_chars (enc : Encoding) (src : list byte) (c : ascii) :
  alphabet_ok enc = true →
  In c (list_ascii_of_string (EncodeToString enc src)) →
  In c (list_ascii_of_string (encode enc)) ∨ padChar enc = Some c.
Proof.
  intros Hok.
  assert (Hpad : ∀ n, In c (list_ascii_of_string (with_pad enc n EmptyString)) →
                      padChar enc = Some c).
  { intros n. unfold with_pad. destruct (padChar enc) as [p|]; [|intros []].
    induction n as [|n IH]; cbn; [intros [] | intros [-> | H]; auto]. }
  assert (Hch : ∀ v k, In (char_at enc (Z.land (Z.shiftr v k) 63))
                          (list_ascii_of_string (encode enc))).
  { intros v k. apply char_at_alphabet, sextet_range. exact Hok. }
  induction src as [|b0|b0 b1|b0 b1 b2 rest IH] using list_ind3;
    cbn [EncodeToString list_ascii_of_string In].
  - intros [].
  - intros [<- | [<- | H]]; eauto.
  - intros [<- | [<- | [<- | H]]]; eauto.
  - intros [<- | [<- | [<- | [<- | H]]]]; eauto.
    left. rewrite <- (Z.shiftr_0_r (Z.lor _ _)). apply Hch.
Qed.

(** A text of two bytes after whole groups ends with one padding character. *)
Lemma EncodeToString_last_pad (enc : Encoding) (p : ascii) (src : list byte) (k : nat) :
  padChar enc = Some p → length src = (3 * k + 2)%nat →
  String.get (4 * k + 3) (EncodeToString enc src) = Some p.
Proof.
  intros Hp. revert src. induction k as [|k IH]; intros src Hlen.
  - destruct src as [|b0 [|b1 [|b2 rest]]]; try discriminate.
    cbn [EncodeToString]. unfold with_pad. rewrite Hp. reflexivity.
  - destruct src as [|b0 [|b1 [|b2 rest]]]; try (cbn in Hlen; lia).
    cbn [EncodeToString].
    replace (4 * S k + 3)%nat with (S (S (S (S (4 * k + 3))))) by lia.
    cbn [String.get]. apply IH. cbn in Hlen. lia.
Qed.

Example rfc4648_vectors :
  map (fun s => EncodeToString StdEncoding (Bytes.of_string s))
      [""; "f"; "fo"; "foo"; "foob"; "fooba"; "foobar"]%string
  = [""; "Zg=="; "Zm8="; "Zm9v"; "Zm9vYg=="; "Zm9vYmE="; "Zm9vYmFy"]%string.
Proof. vm_compute. reflexivity. Qed.

Example url_alphabet :
  EncodeToString URLEncoding [xfb; xff; xbf] = "-_-_"%string
  ∧ EncodeToString StdEncoding [xfb; xff; xbf] = "+/+/"%string
  ∧ EncodeToString URLEncoding [xfb; xff] = "-_8="%string
  ∧ EncodeToString RawURLEncoding [xfb; xff] = "-_8"%string.
Proof. vm_compute. auto. Qed.
End Base64Facts.

(** ** SHA-256: the digest is 32 bytes *)

Module SHA256Facts.
Import SHA256.

Lemma be_bytes_length (n : nat) (x : Z) : length (be_bytes n x) = n.
Proof. unfold be_bytes. now rewrite length_map, length_rev, length_seq. Qed.

Lemma Sum256_length (msg : list byte) : length (Sum256 msg) = 32%nat.
Proof.
  unfold Sum256, digest_bytes.
  rewrite !length_app, !be_bytes_length. reflexivity.
Qed.


Example sha256_abc :
  hex (Sum256 (Bytes.of_string "abc"))
  = "ba7816bf8f01cfea414140de5dae2223b00361a396177a9cb410ff61f20015ad"%string.
Proof. vm_compute. reflexivity. Qed.

Example sha256_empty :
  hex (Sum256 [])
  = "e3b0c44298fc1c149afbf4c8996fb92427ae41e4649b934ca495991b7852b855"%string.
Proof. vm_compute. reflexivity. Qed.

Example sha256_two_blocks :
  hex (Sum256 (Bytes.of_string "abcdbcdecdefdefgefghfghighijhijkijkljklmklmnlmnomnopnopq"))
  = "248d6a61d20638b8e5c026930c3e6039a33ce45964ff2167f6ecedd419db06c1"%string.
Proof. vm_compute. reflexivity. Qed.

Example streaming :
  Sum (Write (Write New (Bytes.of_string "a")) (Bytes.of_string "bc")) []
  = Sum256 (Bytes.of_string "abc").
Proof. reflexivity. Qed.
End SHA256Facts.

(** ** The message id *)

Module GossipSpec.
Import Gossip Base64 Base64Facts SHA256Facts.

Lemma MsgIDFunction_unfold (pmsg : Message) :
  MsgIDFunction pmsg = EncodeToString URLEncoding (SHA256.Sum256 (Data pmsg)).
Proof. reflexivity. Qed.

(** C5. The id of a message is the URL-safe base64 text of the SHA-256
    digest of its data: the text decodes back to the whole digest (nothing
    is cut), it has the 44 characters of 32 padded bytes and ends with the
    padding character, its characters are those of the URL-safe alphabet
    and the padding; and two messages with the same data have the same id
    whatever their other fields. *)
Theorem MsgIDFunction_base64url_sha256 (pmsg : Message) :
  MsgIDFunction pmsg = EncodeToString URLEncoding (SHA256.Sum256 (Data pmsg))
  ∧ DecodeString URLEncoding (MsgIDFunction pmsg) = Some (SHA256.Sum256 (Data pmsg))
  ∧ String.length (MsgIDFunction pmsg) = 44%nat
  ∧ String.get 43 (MsgIDFunction pmsg) = Some "="%char
  ∧ (∀ c, In c (list_ascii_of_string (MsgIDFunction pmsg)) →
          In c (list_ascii_of_string encodeURL) ∨ c = "="%char)
  ∧ (∀ other, Data other = Data pmsg → MsgIDFunction other = MsgIDFunction pmsg).
Proof.
  rewrite !MsgIDFunction_unfold.
  assert (Hpad : is_Some (padChar URLEncoding)) by (eexists; reflexivity).
  split; [reflexivity|].
  split; [apply DecodeString_EncodeToString; [apply URLEncoding_ok | exact Hpad]|].
  split.
  { rewrite EncodeToString_length by exact Hpad. now rewrite Sum256_length. }
  split.
  { apply (EncodeToString_last_pad URLEncoding "="%char _ 10); [reflexivity|].
    apply Sum256_length. }
  split.
  { intros c Hc.
    destruct (EncodeToString_chars URLEncoding _ c URLEncoding_ok Hc) as [Hin | Hp].
    - now left.
    - right. now injection Hp. }
  intros other Hdata. rewrite MsgIDFunction_unfold. now rewrite Hdata.
Qed.

Example msg_id_abc :
  MsgIDFunction {| From_ := Bytes.of_string "QmSender"; Data := Bytes.of_string "abc";
                   Seqno := [x01]; Topic := "/eth2/beacon_block"; Signature := [];
                   Key := [] |}
  = "ungWv48Bz-pBQUDeXa4iI7ADYaOWF3qctBD_YfIAFa0="%string.
Proof. vm_compute. reflexivity. Qed.
End GossipSpec.

(** ** The peer store *)

Module PeerStoreSpec.
Import PeerStore.

Ltac peer_fields :=
  unfold Peer.set_Error, Peer.set_Attempted, Peer.set_Attempts, Peer.set_Succeed,
    Peer.set_MetadataRequest, Peer.set_MetadataSucceed;
  cbn [Peer.PeerId Peer.MetadataRequest Peer.MetadataSucceed Peer.Attempted
       Peer.Succeed Peer.Attempts Peer.Error Peer.Rest negb].

Section Facts.
Context {R : Type} {M : Peer.Methods R}.
Implicit Types (c : PeerStore R) (p : Peer R) (id : string).

Lemma Load_Store (db : PeerStoreStorage R) (k k' : string) (v : Peer R) :
  Load (Store db k v) k' = if decide (k = k') then Some v else Load db k'.
Proof.
  destruct db as [path m | m]; unfold Load; cbn [Store contents];
    apply lookup_insert.
Qed.

Lemma Load_StorePeer c p id :
  Load (Storage (StorePeer c p)) id
  = if decide (Peer.PeerId p = id) then Some p else Load (Storage c) id.
Proof. unfold StorePeer. cbn [with_Storage Storage]. apply Load_Store. Qed.

Lemma GetPeerData_absent c id :
  Load (Storage c) id = None →
  GetPeerData c id = inr ("could not find peer in peerstore: " +:+ id).
Proof. intros H. unfold GetPeerData. now rewrite H. Qed.

Lemma GetPeerData_present c id p :
  Load (Storage c) id = Some p → GetPeerData c id = inl p.
Proof. intros H. unfold GetPeerData. now rewrite H. Qed.

(** One attempt on a stored peer. *)
Lemma attempt_present c id p (op : AttemptOp) :
  keeps_attempt_fields Peer.AddPositiveConnAttempt →
  well_behaved op →
  Load (Storage c) id = Some p → Peer.PeerId p = id →
  ∃ p', attempt c id op = (None, StorePeer c p')
        ∧ Load (Storage (snd (attempt c id op))) id = Some p'
        ∧ Peer.PeerId p' = id
        ∧ Peer.Attempts p' = (Peer.Attempts p + 1)%N
        ∧ Peer.Attempted p' = true.
Proof.
  intros Hpos Hop Hload Hid.
  destruct op as [rec_err fn | ]; cbn [attempt well_behaved] in *.
  - unfold AddNewNegConnectionAttempt. rewrite (GetPeerData_present _ _ _ Hload).
    cbv zeta.
    match goal with |- ∃ p', (None, StorePeer c (fn ?q)) = _ ∧ _ => set (q0 := q) end.
    assert (Hq : Peer.PeerId q0 = id ∧ Peer.Attempts q0 = (Peer.Attempts p + 1)%N
                 ∧ Peer.Attempted q0 = true).
    { subst q0. peer_fields. destruct (Peer.Attempted p); peer_fields; auto. }
    destruct Hq as (Hq1 & Hq2 & Hq3). clearbody q0.
    destruct (Hop q0) as (Hi & Ha & Hb).
    exists (fn q0). cbn [snd]. rewrite Load_StorePeer.
    rewrite Hi, Hq1. rewrite decide_True by reflexivity.
    rewrite Ha, Hb. auto.
  - unfold AddNewPosConnectionAttempt. rewrite (GetPeerData_present _ _ _ Hload).
    cbv zeta.
    match goal with
    | |- ∃ p', (None, StorePeer c (Peer.AddPositiveConnAttempt ?q)) = _ ∧ _ =>
        set (q0 := q)
    end.
    assert (Hq : Peer.PeerId q0 = id ∧ Peer.Attempts q0 = (Peer.Attempts p + 1)%N
                 ∧ Peer.Attempted q0 = true).
    { subst q0. peer_fields. destruct (Peer.Attempted p); peer_fields; auto. }
    destruct Hq as (Hq1 & Hq2 & Hq3). clearbody q0.
    destruct (Hpos q0) as (Hi & Ha & Hb).
    exists (Peer.AddPositiveConnAttempt q0). cbn [snd]. rewrite Load_StorePeer.
    rewrite Hi, Hq1. rewrite decide_True by reflexivity.
    rewrite Ha, Hb. auto.
Qed.

(** The store stays consistent: a peer found under an id carries that id. *)
Lemma StorePeer_consistent c p : consistent c → consistent (StorePeer c p).
Proof.
  intros Hc key q. rewrite Load_StorePeer.
  destruct (decide (Peer.PeerId p = key)) as [<-|Hne].
  - now intros [= <-].
  - apply Hc.
Qed.

Lemma attempt_consistent c id (op : AttemptOp) :
  keeps_attempt_fields Peer.AddPositiveConnAttempt →
  well_behaved op → consistent c → consistent (snd (attempt c id op)).
Proof.
  intros Hpos Hop Hc.
  destruct (Load (Storage c) id) as [p|] eqn:Hload.
  - destruct (attempt_present c id p op Hpos Hop Hload (Hc _ _ Hload)) as (p' & -> & _).
    cbn [snd]. now apply StorePeer_consistent.
  - destruct op as [rec_err fn|]; cbn [attempt];
      unfold AddNewNegConnectionAttempt, AddNewPosConnectionAttempt;
      rewrite (GetPeerData_absent _ _ Hload); exact Hc.
Qed.

Lemma attempts_app c id (ops1 ops2 : list AttemptOp) :
  attempts c id (ops1 ++ ops2) = attempts (attempts c id ops1) id ops2.
Proof. unfold attempts. apply fold_left_app. Qed.

(** A sequence of attempts on a stored peer. *)
Lemma attempts_present c id p (ops : list AttemptOp) :
  keeps_attempt_fields Peer.AddPositiveConnAttempt →
  Forall well_behaved ops →
  Load (Storage c) id = Some p → Peer.PeerId p = id →
  ∃ p', Load (Storage (attempts c id ops)) id = Some p'
        ∧ Peer.PeerId p' = id
        ∧ Peer.Attempts p' = (Peer.Attempts p + N.of_nat (length ops))%N
        ∧ (ops ≠ [] → Peer.Attempted p' = true).
Proof.
  intros Hpos Hops. revert c p.
  induction Hops as [|op ops Hop Hops IH]; intros c p Hload Hid.
  - exists p. cbn. repeat split; auto. lia.
  - destruct (attempt_present c id p op Hpos Hop Hload Hid)
      as (p1 & _ & Hl1 & Hi1 & Ha1 & Hb1).
    destruct (IH _ _ Hl1 Hi1) as (p2 & Hl2 & Hi2 & Ha2 & Hb2).
    exists p2. unfold attempts in *. cbn [fold_left].
    repeat split; auto.
    + rewrite Ha2, Ha1. cbn [length]. lia.
    + intros _. destruct ops as [|op' ops'].
      * cbn in Hl2. rewrite Hl1 in Hl2. injection Hl2 as <-. exact Hb1.
      * apply Hb2. discriminate.
Qed.

(** C6. For every stored peer and every sequence of negative and
    positive connection attempts on it (the prune policy and
    [AddPositiveConnAttempt] leaving the identity and the attempt fields
    alone), the attempts counter never decreases: after [ops2] more
    attempts it has grown by exactly the number of attempts in [ops2],
    one for each; and after every attempt a peer that succeeded has been
    attempted. *)
Theorem attempts_counter_monotone c id p (ops1 ops2 : list AttemptOp) :
  keeps_attempt_fields Peer.AddPositiveConnAttempt →
  Forall well_behaved (ops1 ++ ops2) →
  Load (Storage c) id = Some p → Peer.PeerId p = id →
  ∃ p1 p2,
    Load (Storage (attempts c id ops1)) id = Some p1
    ∧ Load (Storage (attempts c id (ops1 ++ ops2))) id = Some p2
    ∧ Peer.Attempts p2 = (Peer.Attempts p1 + N.of_nat (length ops2))%N
    ∧ (Peer.Attempts p1 ≤ Peer.Attempts p2)%N
    ∧ (ops1 ≠ [] → Peer.Succeed p1 = true → Peer.Attempted p1 = true).
Proof.
  intros Hpos Hops Hload Hid.
  apply Forall_app in Hops as [Hops1 Hops2].
  destruct (attempts_present c id p ops1 Hpos Hops1 Hload Hid)
    as (p1 & Hl1 & Hi1 & Ha1 & Hb1).
  destruct (attempts_present _ id p1 ops2 Hpos Hops2 Hl1 Hi1)
    as (p2 & Hl2 & Hi2 & Ha2 & Hb2).
  exists p1, p2. rewrite attempts_app.
  repeat split; auto. lia.
Qed.

(** C10. On a peer id that the store does not hold, every per-peer event
    returns an error and the store is the one it was. *)
Theorem events_on_absent_peer c id (now : Time) (direction topicName rec_err conErr : string)
        (success succeed : bool) (fn : ErrorHandling R) :
  Load (Storage c) id = None →
  ConnectionEvent now c id direction
    = (Some ("could not add connection event, peer is not in the list: " +:+ id), c)
  ∧ DisconnectionEvent now c id
    = (Some ("could not add disconnection event, peer is not in the list: " +:+ id), c)
  ∧ MetadataEvent c id success
    = (Some ("could not add metadata event, peer is not in the list: " +:+ id), c)
  ∧ MessageEvent now c id topicName
    = (Some ("could not add message event, peer is not in the list: " +:+ id), c)
  ∧ ConnectionAttemptEvent c id succeed conErr
    = (Some ("could not add connection attempt, peer is not in the list: " +:+ id), c)
  ∧ AddNewPosConnectionAttempt c id = (Some ("Not peer found with that ID " +:+ id), c)
  ∧ AddNewNegConnectionAttempt c id rec_err fn
    = (Some ("Not peer found with that ID " +:+ id), c).
Proof.
  intros Habsent. pose proof (GetPeerData_absent c id Habsent) as Hget.
  unfold ConnectionEvent, DisconnectionEvent, MetadataEvent, MessageEvent,
    ConnectionAttemptEvent, AddNewPosConnectionAttempt, AddNewNegConnectionAttempt.
  rewrite Hget. repeat split.
Qed.

(** C3. The error of a failed attempt is stored only when the peer had
    never been attempted. Of two failed attempts on a new peer whose
    errors are classified differently, the stored error is the classified
    error of the first and not of the second, though the second is
    counted; and on every stored peer that was attempted before (after a
    success, say) a failed attempt leaves the stored error as it was. The
    callback is any that leaves the id and the error of the record
    alone. *)
Theorem second_negative_attempt_keeps_first_error c (r : R) (id e1 e2 : string)
        (fn : ErrorHandling R) :
  (∀ q, Peer.PeerId (fn q) = Peer.PeerId q ∧ Peer.Error (fn q) = Peer.Error q
        ∧ Peer.Attempts (fn q) = Peer.Attempts q
        ∧ Peer.Attempted (fn q) = Peer.Attempted q) →
  Peer.FilterError e1 ≠ Peer.FilterError e2 →
  let c0 := StorePeer c (Peer.Make id false false false false 0%N "" r) in
  let c1 := snd (AddNewNegConnectionAttempt c0 id e1 fn) in
  let c2 := snd (AddNewNegConnectionAttempt c1 id e2 fn) in
  (∃ p2, Load (Storage c2) id = Some p2
         ∧ Peer.Attempts p2 = 2%N ∧ Peer.Attempted p2 = true
         ∧ Peer.Error p2 = Peer.FilterError e1
         ∧ Peer.Error p2 ≠ Peer.FilterError e2)
  ∧ (∀ c' p, Load (Storage c') id = Some p → Peer.PeerId p = id →
             Peer.Attempted p = true →
             ∃ p', Load (Storage (snd (AddNewNegConnectionAttempt c' id e2 fn))) id = Some p'
                   ∧ Peer.Attempts p' = (Peer.Attempts p + 1)%N
                   ∧ Peer.Error p' = Peer.Error p).
Proof.
  intros Hfn Hsep. cbv zeta.
  assert (Hstep : ∀ c' p e, Load (Storage c') id = Some p → Peer.PeerId p = id →
            ∃ p', Load (Storage (snd (AddNewNegConnectionAttempt c' id e fn))) id = Some p'
                  ∧ Peer.PeerId p' = id
                  ∧ Peer.Attempts p' = (Peer.Attempts p + 1)%N
                  ∧ Peer.Attempted p' = true
                  ∧ Peer.Error p'
                    = if Peer.Attempted p then Peer.Error p else Peer.FilterError e).
  { intros c' p e Hload Hid. unfold AddNewNegConnectionAttempt.
    rewrite (GetPeerData_present _ _ _ Hload). cbv zeta. cbn [snd].
    match goal with
    | |- ∃ p', Load (Storage (StorePeer c' (fn ?q))) id = _ ∧ _ => set (q0 := q)
    end.
    assert (Hq : Peer.PeerId q0 = id ∧ Peer.Attempts q0 = (Peer.Attempts p + 1)%N
                 ∧ Peer.Attempted q0 = true
                 ∧ Peer.Error q0
                   = if Peer.Attempted p then Peer.Error p else Peer.FilterError e).
    { subst q0. peer_fields. destruct (Peer.Attempted p); peer_fields; auto. }
    destruct Hq as (Hq1 & Hq2 & Hq3 & Hq4). clearbody q0.
    destruct (Hfn q0) as (Hi & He & Ha & Hb).
    exists (fn q0). rewrite Load_StorePeer, Hi, Hq1, He, Ha, Hb.
    rewrite decide_True by reflexivity. auto. }
  split.
  - set (p0 := Peer.Make id false false false false 0%N "" r).
    assert (Hl0 : Load (Storage (StorePeer c p0)) id = Some p0).
    { rewrite Load_StorePeer. cbn. now rewrite decide_True. }
    destruct (Hstep _ p0 e1 Hl0 eq_refl) as (p1 & Hl1 & Hi1 & Ha1 & Hb1 & He1).
    destruct (Hstep _ p1 e2 Hl1 Hi1) as (p2 & Hl2 & Hi2 & Ha2 & Hb2 & He2).
    exists p2. rewrite Hb1 in He2. cbn in He1, Ha1.
    repeat split; auto.
    + rewrite Ha2, Ha1. reflexivity.
    + congruence.
    + congruence.
  - intros c' p Hload Hid Hatt.
    destruct (Hstep c' p e2 Hload Hid) as (p' & Hl & _ & Ha & _ & He).
    exists p'. rewrite Hatt in He. auto.
Qed.
End Facts.

Section Constructor.
Context {R : Type}.
Variable default_db_path : string.
Variable disk : string → gmap string (Peer R).

(** C7. The backend of a new store: the memory backend for the string
    [memory]; for [bolt] and for every other string the Bolt backend, at
    the given path when it is not empty and at the default path when it
    is. *)
Theorem NewPeerStore_backend (now : Time) (dbtype path : string) :
  Storage (NewPeerStore default_db_path disk now "memory" path) = NewMemoryDB
  ∧ Storage (NewPeerStore default_db_path disk now "bolt" path)
    = NewBoltPeerDB disk (if path is EmptyString then default_db_path else path)
  ∧ Storage (NewPeerStore default_db_path disk now dbtype path)
    = if String.eqb dbtype "memory" then NewMemoryDB
      else NewBoltPeerDB disk (if path is EmptyString then default_db_path else path).
Proof.
  assert (Hpath : (if (String.length path <=? 0)%nat then default_db_path else path)
                  = (if path is EmptyString then default_db_path else path)).
  { destruct path; reflexivity. }
  unfold NewPeerStore. cbn [Storage]. rewrite Hpath.
  split; [reflexivity|]. split; [reflexivity|].
  destruct (String.eqb dbtype "bold") eqn:Hbold.
  - apply String.eqb_eq in Hbold. subst dbtype. reflexivity.
  - reflexivity.
Qed.
End Constructor.

(** The claims on a concrete store. *)
Section Witnesses.
Import PeerModel.

Lemma model_keeps_attempt_fields :
  keeps_attempt_fields (Peer.AddPositiveConnAttempt (R := Dynamic))
  ∧ keeps_attempt_fields log_error.
Proof. split; intros p; repeat split. Qed.

Lemma attempts_counter_monotone_witness :
  let c := memory_store [new_peer "P1"] in
  let ops1 := [NegAttempt "dial-timeout" log_error] in
  let ops2 := [PosAttempt; NegAttempt "reset-by-peer" log_error] in
  Load (Storage c) "P1" = Some (new_peer "P1")
  ∧ ∃ p1 p2,
      Load (Storage (attempts c "P1" ops1)) "P1" = Some p1
      ∧ Load (Storage (attempts c "P1" (ops1 ++ ops2))) "P1" = Some p2
      ∧ Peer.Attempts p2 = (Peer.Attempts p1 + N.of_nat (length ops2))%N
      ∧ (Peer.Attempts p1 ≤ Peer.Attempts p2)%N
      ∧ (ops1 ≠ [] → Peer.Succeed p1 = true → Peer.Attempted p1 = true).
Proof.
  cbv zeta. split; [reflexivity|].
  apply (attempts_counter_monotone (memory_store [new_peer "P1"]) "P1" (new_peer "P1")).
  - exact (proj1 model_keeps_attempt_fields).
  - repeat constructor; exact (proj2 model_keeps_attempt_fields).
  - reflexivity.
  - reflexivity.
Defined.

Lemma events_on_absent_peer_witness :
  let c := memory_store [new_peer "P1"] in
  Load (Storage c) "P9" = None
  ∧ MessageEvent 7 c "P9" "/eth2/beacon_block"
    = (Some "could not add message event, peer is not in the list: P9"%string, c)
  ∧ AddNewNegConnectionAttempt c "P9" "dial-timeout" log_error
    = (Some "Not peer found with that ID P9"%string, c).
Proof.
  cbv zeta.
  assert (Habsent : Load (Storage (memory_store [new_peer "P1"])) "P9" = None)
    by reflexivity.
  split; [exact Habsent|].
  destruct (events_on_absent_peer (memory_store [new_peer "P1"]) "P9" 7 "inbound"
              "/eth2/beacon_block" "dial-timeout" "dial-timeout" true false log_error
              Habsent) as (_ & _ & _ & Hmsg & _ & _ & Hneg).
  split; [exact Hmsg | exact Hneg].
Defined.

(** C6, as it is stated, fails: the callback of a failed attempt is
    handed the record after the counter and the flag were written and may
    write them again. With a callback that starts the attempt history
    again, the counter is at one after a success and at zero after the
    failure that follows, and the peer is then stored as succeeded and
    not attempted. *)
Lemma attempts_counter_reset_by_callback :
  ¬ attempts_as_specified (memory_store [new_peer "P1"]) "P1".
Proof.
  intros Hspec.
  destruct (Hspec (new_peer "P1") [PosAttempt; NegAttempt "dial-timeout" forget_attempts] []
                  eq_refl) as (p1 & _ & Hl1 & _ & _ & _ & Himp).
  vm_compute in Hl1. injection Hl1 as <-.
  specialize (Himp ltac:(discriminate) eq_refl). discriminate.
Qed.

Example attempts_counter_drops :
  let c := memory_store [new_peer "P1"] in
  (Peer.Attempts <$> Load (Storage (attempts c "P1" [PosAttempt])) "P1") = Some 1%N
  ∧ (Peer.Attempts <$> Load (Storage (attempts c "P1"
        [PosAttempt; NegAttempt "dial-timeout" forget_attempts])) "P1") = Some 0%N.
Proof. vm_compute. auto. Qed.

Lemma second_negative_attempt_keeps_first_error_witness :
  let c0 := memory_store [new_peer "P3"] in
  let c1 := snd (AddNewNegConnectionAttempt c0 "P3" "dial-timeout" log_error) in
  let c2 := snd (AddNewNegConnectionAttempt c1 "P3" "i/o timeout" log_error) in
  let c1' := snd (AddNewPosConnectionAttempt c0 "P3") in
  let c2' := snd (AddNewNegConnectionAttempt c1' "P3" "i/o timeout" log_error) in
  classify "dial-timeout" ≠ classify "i/o timeout"
  ∧ (Peer.Error <$> Load (Storage c2) "P3") = Some (classify "dial-timeout")
  ∧ (Peer.Error <$> Load (Storage c2) "P3") ≠ Some (classify "i/o timeout")
  ∧ (Peer.Attempts <$> Load (Storage c2) "P3") = Some 2%N
  ∧ (Peer.Error <$> Load (Storage c2') "P3") = Some "None"%string
  ∧ (Peer.Attempts <$> Load (Storage c2') "P3") = Some 2%N
  ∧ classify "i/o timeout" ≠ "None"%string.
Proof.
  cbv zeta.
  assert (Hsep : classify "dial-timeout" ≠ classify "i/o timeout")
    by (vm_compute; discriminate).
  assert (Hfn : ∀ q : Peer.t Dynamic,
             Peer.PeerId (log_error q) = Peer.PeerId q
             ∧ Peer.Error (log_error q) = Peer.Error q
             ∧ Peer.Attempts (log_error q) = Peer.Attempts q
             ∧ Peer.Attempted (log_error q) = Peer.Attempted q)
    by (intros q; repeat split).
  destruct (second_negative_attempt_keeps_first_error (M := methods)
              (NewPeerStore "peerstore.db" (fun _ => ∅) 0 "memory" "") no_events
              "P3" "dial-timeout" "i/o timeout" log_error Hfn Hsep)
    as [(p2 & Hl2 & Ha2 & _ & He2 & Hne2) Hlater].
  assert (Hpos : Load (Storage (snd (AddNewPosConnectionAttempt
                                      (memory_store [new_peer "P3"]) "P3"))) "P3"
                 = Some (Peer.Make "P3" false false true true 1%N "None" no_events))
    by (vm_compute; reflexivity).
  destruct (Hlater _ _ Hpos eq_refl eq_refl) as (p' & Hl' & Ha' & He').
  split; [exact Hsep|].
  change (StorePeer (NewPeerStore "peerstore.db" (fun _ => ∅) 0 "memory" "")
                    (Peer.Make "P3" false false false false 0%N "" no_events))
    with (memory_store [new_peer "P3"]) in Hl2.
  rewrite Hl2, Hl'. cbn [fmap option_fmap option_map].
  rewrite He2, Ha2, He', Ha'.
  repeat split; try (intros [= Heq]; exact (Hsep Heq)).
Defined.

(** On the concrete peer the error kept after a timeout and a protocol
    mismatch is the timeout. *)
Example stale_error :
  let c0 := memory_store [new_peer "P3"] in
  let c1 := snd (AddNewNegConnectionAttempt c0 "P3" "dial-timeout" log_error) in
  let c2 := snd (AddNewNegConnectionAttempt c1 "P3" "protocol-not-supported" log_error) in
  (Peer.Error <$> Load (Storage c1) "P3") = Some "dial-timeout"%string
  ∧ (Peer.Error <$> Load (Storage c2) "P3") = Some "dial-timeout"%string
  ∧ (Peer.Attempts <$> Load (Storage c2) "P3") = Some 2%N
  ∧ (NegativeConnAttempts ∘ Peer.Rest <$> Load (Storage c2) "P3")
    = Some ["dial-timeout"; "dial-timeout"]%string.
Proof. vm_compute. auto. Qed.

(** After a success the error of a later failure is not stored at all. *)
Example failure_after_success :
  let c0 := memory_store [new_peer "P3"] in
  let c1 := snd (AddNewPosConnectionAttempt c0 "P3") in
  let c2 := snd (AddNewNegConnectionAttempt c1 "P3" "reset-by-peer" log_error) in
  (Peer.Error <$> Load (Storage c2) "P3") = Some "None"%string
  ∧ (Peer.Attempts <$> Load (Storage c2) "P3") = Some 2%N.
Proof. vm_compute. auto. Qed.
End Witnesses.

End PeerStoreSpec.


(** ** The crawler: workers, feed and blacklist *)

Module CrawlerSpec.
Import Crawler.

(** The cases of a step. *)
Ltac break_all :=
  repeat match goal with
         | H : context [match ?x with _ => _ end] |- _ => destruct x eqn:?
         end.

Ltac step_inv H :=
  match type of H with
  | step _ ?s = _ =>
      destruct s as [db0 [[a0 b0 c0 r0] i0 g0] pc0 st0];
      unfold step, worker_step, feeder_move, feeder_step, after_serving,
        ReqNextPeer, send_peer, mbind, option_bind in H;
      cbn [db feed pc status dp pointer refreshFlag pArray blacklist nPeerChan nPeerReq
           with_dp with_pArray with_blacklist with_nPeerChan with_nPeerReq Blacklist] in H;
      break_all; simplify_eq
  end.

Ltac solve_only :=
  unfold feeder_only;
  repeat (constructor; [cbn; auto|]); first [constructor | assumption].

Section FeedFacts.
Context {D : Type} {DB : FilecoinDB D}.

Lemma refresh_fold (db : D) (l : list string) (d : discoveredPeers) :
  fold_left
    (fun d pID =>
       match LoadFilecoinPeer db pID with
       | None => d
       | Some _ => with_pArray d (pArray d ++ [pID])
       end) l d
  = with_pArray d (pArray d ++ List.filter (loadable db) l).
Proof.
  revert d. induction l as [|pid l IH]; intros d; cbn [fold_left List.filter].
  - rewrite app_nil_r. now destruct d.
  - rewrite IH. unfold loadable at 2.
    destruct (LoadFilecoinPeer db pid) as [p|]; [|reflexivity].
    unfold with_pArray. cbn [pArray blacklist nPeerChan nPeerReq].
    now rewrite <- app_assoc.
Qed.

Lemma refreshPeerList_spec (db : D) (d : discoveredPeers) :
  refreshPeerList db d
  = with_pArray d (pArray d ++ List.filter (loadable db) (GetFilecoinPeers db)).
Proof. apply refresh_fold. Qed.

Lemma known_loadable (db : D) (pid : string) :
  known db pid ↔ In pid (List.filter (loadable db) (GetFilecoinPeers db)).
Proof.
  unfold known, loadable. rewrite filter_In.
  destruct (LoadFilecoinPeer db pid) as [p|].
  - split; intros [Hin _]; split; eauto.
  - split; intros [_ Hno]; [destruct Hno as [? ?]|]; discriminate.
Qed.

(** What a completed request leaves alone and what it sends. *)
Lemma refresh_check_inv (db : D) (f f' : feeder) (evs evs' : list Event) :
  refresh_check db f evs = Done (f', evs') →
  blacklist (dp f') = blacklist (dp f)
  ∧ nPeerChan (dp f') = nPeerChan (dp f)
  ∧ nPeerReq (dp f') = nPeerReq (dp f)
  ∧ pointer f' = pointer f
  ∧ (∀ pid, In (EvSend pid) evs' → In (EvSend pid) evs).
Proof.
  unfold refresh_check.
  destruct (refreshFlag f || (length (pArray (dp f)) <=? pointer f)%nat);
    intros [= <- <-].
  - rewrite refreshPeerList_spec. cbn. repeat split; auto.
    intros pid Hin. apply in_app_or in Hin as [Hin | [Hin | []]]; [exact Hin | discriminate].
  - auto.
Qed.

Lemma on_request_inv (db : D) (f f' : feeder) (evs : list Event) :
  on_request db f = Done (f', evs) →
  blacklist (dp f') = blacklist (dp f)
  ∧ ∀ pid, In (EvSend pid) evs →
           isBlacklisted (dp f) pid = false
           ∧ pArray (dp f) !! pointer f = Some pid
           ∧ nPeerChan (dp f') = nPeerChan (dp f) ++ [pid].
Proof.
  unfold on_request.
  destruct (negb (length (pArray (dp f)) =? 0)%nat).
  - destruct (pArray (dp f) !! pointer f) as [pid|] eqn:Hpid; [|discriminate].
    destruct (isBlacklisted (dp f) pid) eqn:Hbl.
    + unfold ReqNextPeer. destruct (nPeerReq (dp f) <? workers)%nat; [|discriminate].
      intros [= <- <-]. cbn. split; [reflexivity|]. intros q [Hq | []]. discriminate.
    + unfold send_peer. destruct (length (nPeerChan (dp f)) <? workers)%nat; [|discriminate].
      intros Hrc. apply refresh_check_inv in Hrc as (Hb & Hc & _ & _ & Hs).
      cbn in Hb, Hc, Hs. split; [exact Hb|].
      intros q Hq. apply Hs in Hq as [[= <-] | []]. auto.
  - unfold ReqNextPeer. destruct (nPeerReq (dp f) <? workers)%nat; [|discriminate].
    intros Hrc. apply refresh_check_inv in Hrc as (Hb & _ & _ & _ & Hs).
    cbn in Hb, Hs. split; [exact Hb|].
    intros q Hq. apply Hs in Hq as [Hq | [Hq | []]]; discriminate.
Qed.

(** The blacklist is written by [Blacklist] alone. *)
Lemma step_blacklist_cases (a : Action) (s s' : system D) (evs : list Event) :
  step a s = Some (s', evs) →
  (blacklist (dp (feed s')) = blacklist (dp (feed s)) ∧ ∀ q, a ≠ WorkerBlacklist q)
  ∨ ∃ q, a = WorkerBlacklist q
         ∧ blacklist (dp (feed s')) = <[q := ()]> (blacklist (dp (feed s))).
Proof.
  intros Hstep. step_inv Hstep; cbn;
    try (left; split; [reflexivity | intros q; discriminate]);
    try (right; eexists; split; reflexivity).
Qed.

(** The blacklist only grows. *)
Lemma step_blacklist (a : Action) (s s' : system D) (evs : list Event) (pid : string) :
  step a s = Some (s', evs) →
  isBlacklisted (dp (feed s)) pid = true → isBlacklisted (dp (feed s')) pid = true.
Proof.
  intros Hstep. unfold isBlacklisted.
  destruct (step_blacklist_cases a s s' evs Hstep) as [[-> _] | (q & _ & ->)]; [auto|].
  destruct (decide (q = pid)) as [->|Hne].
  - now rewrite lookup_insert_eq.
  - now rewrite lookup_insert_ne.
Qed.

Lemma step_blacklists (pid : string) (s s' : system D) (evs : list Event) :
  step (WorkerBlacklist pid) s = Some (s', evs) →
  isBlacklisted (dp (feed s')) pid = true.
Proof.
  intros Hstep. unfold isBlacklisted.
  destruct (step_blacklist_cases _ s s' evs Hstep) as [[_ Hno] | (q & [= <-] & ->)].
  - now destruct (Hno pid).
  - now rewrite lookup_insert_eq.
Qed.

(** An id is sent by the feeder alone, from where it stands before the
    send; and the feeder comes to stand there by the test of the
    blacklist alone. *)
Lemma step_send (a : Action) (s s' : system D) (evs : list Event) (pid : string) :
  step a s = Some (s', evs) → In (EvSend pid) evs →
  a = FeedContinue ∧ status s = Running ∧ pc s = AtSend pid.
Proof.
  intros Hstep Hin. step_inv Hstep; cbn in Hin; intuition (try discriminate); simplify_eq;
    auto.
Qed.

Lemma step_pending (a : Action) (s s' : system D) (evs : list Event) (pid : string) :
  step a s = Some (s', evs) → pc s' = AtSend pid →
  pc s = AtSend pid
  ∨ (a = FeedContinue ∧ evs = [] ∧ pc s = AtTest pid
     ∧ isBlacklisted (dp (feed s)) pid = false).
Proof.
  intros Hstep Hpc. step_inv Hstep; cbn in Hpc; simplify_eq; auto.
Qed.

Lemma exec_blacklist (s s' : system D) (tr : list (Action * list Event)) (pid : string) :
  exec s tr s' →
  isBlacklisted (dp (feed s)) pid = true ∨ In (WorkerBlacklist pid) (map fst tr) →
  isBlacklisted (dp (feed s')) pid = true.
Proof.
  induction 1 as [s | s a evs s' tr s'' Hstep Hexec IH].
  - intros [Hbl | []]. exact Hbl.
  - intros [Hbl | [Ha | Hin]]; apply IH.
    + left. eapply step_blacklist; eauto.
    + left. cbn in Ha. subst a. eapply step_blacklists; eauto.
    + right. exact Hin.
Qed.

(** One step from a state in which the id is blacklisted: what is sent
    was about to be sent, and what is received was in flight. *)
Lemma step_drains (a : Action) (s s' : system D) (evs : list Event) (pid : string) :
  step a s = Some (s', evs) →
  isBlacklisted (dp (feed s)) pid = true →
  (length (List.filter (is_send pid) evs) + pending s' pid = pending s pid)%nat
  ∧ (length (List.filter (is_receive pid) evs) + in_flight s' pid = in_flight s pid)%nat.
Proof.
  intros Hstep Hbl. unfold in_flight, queued, pending.
  step_inv Hstep;
    cbn [db feed pc status dp pointer refreshFlag pArray blacklist nPeerChan nPeerReq
         with_dp with_pArray with_blacklist with_nPeerChan with_nPeerReq Blacklist
         List.filter is_send is_receive length] in *;
    rewrite ?List.filter_app, ?length_app;
    cbn [List.filter length];
    repeat match goal with
           | |- context [String.eqb ?x ?y] => destruct (String.eqb_spec x y)
           end;
    cbn [length]; simplify_eq; try lia; congruence.
Qed.

Lemma events_cons (a : Action) (evs : list Event) (tr : list (Action * list Event)) :
  events ((a, evs) :: tr) = evs ++ events tr.
Proof. reflexivity. Qed.

(** An id that is sent had passed the test of the blacklist, in the
    execution or before it. *)
Lemma sent_was_tested (s s' : system D) (tr : list (Action * list Event)) (pid : string) :
  exec s tr s' →
  ∀ tr1 a evs tr2,
    tr = tr1 ++ (a, evs) :: tr2 → In (EvSend pid) evs →
    a = FeedContinue
    ∧ (pc s = AtSend pid
       ∨ ∃ tr0 st tr0',
           tr1 = tr0 ++ (FeedContinue, []) :: tr0'
           ∧ exec s tr0 st ∧ pc st = AtTest pid
           ∧ isBlacklisted (dp (feed st)) pid = false).
Proof.
  induction 1 as [s | s a0 evs0 s1 tr s2 Hstep Hexec IH]; intros tr1 a evs tr2 Htr Hin.
  - now destruct tr1.
  - destruct tr1 as [|x tr1]; cbn in Htr; simplify_eq.
    + destruct (step_send _ _ _ _ pid Hstep Hin) as (Ha & _ & Hpc). auto.
    + destruct (IH tr1 a evs tr2 eq_refl Hin) as [Ha [Hpc | Htested]].
      * split; [exact Ha|].
        destruct (step_pending _ _ _ _ pid Hstep Hpc) as [Hpc0 | (-> & -> & Hpc0 & Hnb)].
        -- now left.
        -- right. exists [], s, tr1. repeat split; auto. constructor.
      * split; [exact Ha|]. right.
        destruct Htested as (tr0 & st & tr0' & -> & Hex & Hpc & Hnb).
        exists ((a0, evs0) :: tr0), st, tr0'. repeat split; auto.
        econstructor; eauto.
Qed.

(** C4, as the code has it. The feeder tests the blacklist and then
    sends, and the workers call [Blacklist] between the two and while ids
    wait on the buffered channel. So, in every execution that starts
    after [Blacklist] has returned for an id: the id stays blacklisted; it
    is sent only if the feeder had tested it before the call and had not
    yet sent it (once at most); and it is received by the workers exactly
    as often as it was then queued on the output channel or about to be
    sent, less what is still so at the end. And in every execution, an id
    that is sent was not blacklisted when the feeder tested it, in a move
    of the feeder before the send (or before the execution began). *)
Theorem blacklisted_drains (s s' : system D) (tr : list (Action * list Event))
        (pid : string) :
  exec s tr s' →
  (isBlacklisted (dp (feed s)) pid = true →
   isBlacklisted (dp (feed s')) pid = true
   ∧ (sends tr pid + pending s' pid = pending s pid)%nat
   ∧ (deliveries tr pid + in_flight s' pid = in_flight s pid)%nat)
  ∧ (∀ tr1 a evs tr2,
       tr = tr1 ++ (a, evs) :: tr2 → In (EvSend pid) evs →
       a = FeedContinue
       ∧ (pc s = AtSend pid
          ∨ ∃ tr0 st tr0',
              tr1 = tr0 ++ (FeedContinue, []) :: tr0'
              ∧ exec s tr0 st ∧ pc st = AtTest pid
              ∧ isBlacklisted (dp (feed st)) pid = false)).
Proof.
  intros Hexec. split; [|now apply (sent_was_tested s s')].
  induction Hexec as [s | s a evs s1 tr s2 Hstep Hexec IH]; intros Hbl.
  - unfold sends, deliveries. cbn. auto.
  - pose proof (step_blacklist _ _ _ _ pid Hstep Hbl) as Hbl1.
    destruct (step_drains _ _ _ _ pid Hstep Hbl) as [Hs Hd].
    destruct (IH Hbl1) as (Hbl2 & Hs2 & Hd2).
    split; [exact Hbl2|]. unfold sends, deliveries in *.
    rewrite events_cons, !List.filter_app, !length_app. lia.
Qed.

Lemma exec_app (s s1 s2 : system D) (tr1 tr2 : list (Action * list Event)) :
  exec s tr1 s1 → exec s1 tr2 s2 → exec s (tr1 ++ tr2) s2.
Proof.
  induction 1 as [s | s a evs s' tr s'' Hstep Hexec IH]; intros H2; cbn.
  - exact H2.
  - econstructor; [exact Hstep | now apply IH].
Qed.

Lemma events_app (tr1 tr2 : list (Action * list Event)) :
  events (tr1 ++ tr2) = events tr1 ++ events tr2.
Proof. unfold events. now rewrite map_app, concat_app. Qed.

(** The feeder's moves, when no worker acts between them, make up the
    request case as [on_request] has it. First the loads of a refresh. *)
Lemma loads_alone (db0 : D) (peers : list string) (f : feeder) :
  ∃ tr,
    exec {| db := db0; feed := f; pc := AtLoad peers; status := Running |} tr
         {| db := db0;
            feed := with_dp f
                      (fold_left
                         (fun d pID =>
                            match LoadFilecoinPeer db0 pID with
                            | None => d
                            | Some _ => with_pArray d (pArray d ++ [pID])
                            end) peers (dp f));
            pc := AtSelect; status := Running |}
    ∧ events tr = [] ∧ feeder_only tr.
Proof.
  revert f. induction peers as [|pID peers IH]; intros f.
  - exists [(FeedContinue, [])]. split; [|split; [reflexivity | solve_only]].
    econstructor; [|constructor]. destruct f. reflexivity.
  - destruct (IH (match LoadFilecoinPeer db0 pID with
                  | None => f
                  | Some _ => with_dp f (with_pArray (dp f) (pArray (dp f) ++ [pID]))
                  end)) as (tr & Hexec & Hevs & Honly).
    exists ((FeedContinue, []) :: tr).
    split; [|split; [exact Hevs | solve_only]].
    econstructor; [reflexivity|].
    cbn [db feed pc status fold_left]. destruct (LoadFilecoinPeer db0 pID); exact Hexec.
Qed.

Lemma refresh_check_alone (db0 : D) (f f' : feeder) (evs evs' : list Event) :
  refresh_check db0 f evs = Done (f', evs') →
  ∃ tr,
    exec {| db := db0; feed := f; pc := after_serving f; status := Running |} tr
         {| db := db0; feed := f'; pc := AtSelect; status := Running |}
    ∧ evs ++ events tr = evs' ∧ feeder_only tr.
Proof.
  unfold refresh_check, after_serving.
  destruct (refreshFlag f || (length (pArray (dp f)) <=? pointer f)%nat); intros [= <- <-].
  - destruct (loads_alone db0 (GetFilecoinPeers db0) f) as (tr & Hexec & Hevs & Honly).
    exists ((FeedContinue, [EvRefresh]) :: tr).
    split; [|split; [|solve_only]].
    + econstructor; [reflexivity | exact Hexec].
    + rewrite events_cons, Hevs. reflexivity.
  - exists []. split; [constructor|]. split; [apply app_nil_r | solve_only].
Qed.

Lemma feeder_alone (s : system D) (n : nat) :
  status s = Running → pc s = AtSelect → nPeerReq (dp (feed s)) = S n →
  let f := with_dp (feed s) (with_nPeerReq (dp (feed s)) n) in
  (∀ f' evs,
     on_request (db s) f = Done (f', evs) →
     ∃ tr, exec s tr {| db := db s; feed := f'; pc := AtSelect; status := Running |}
           ∧ events tr = evs ∧ feeder_only tr)
  ∧ (on_request (db s) f = Panic →
     step FeedRequest s
     = Some ({| db := db s; feed := f; pc := AtSelect; status := Panicked |}, [])).
Proof.
  destruct s as [db0 f0 pc0 st0]. cbn [status pc feed db]. intros -> -> Hreq. cbv zeta.
  set (f := with_dp f0 (with_nPeerReq (dp f0) n)).
  assert (Hfirst : step FeedRequest {| db := db0; feed := f0; pc := AtSelect; status := Running |}
                   = feeder_move {| db := db0; feed := f0; pc := AtSelect; status := Running |} f).
  { unfold step. cbn [status pc feed]. now rewrite Hreq. }
  unfold on_request. split.
  - intros f' evs Hon.
    destruct (negb (length (pArray (dp f)) =? 0)%nat) eqn:Hlen.
    + destruct (pArray (dp f) !! pointer f) as [pid|] eqn:Hpid; [|discriminate].
      set (f1 := {| dp := dp f; pointer := S (pointer f); refreshFlag := refreshFlag f |}).
      assert (H1 : step FeedRequest {| db := db0; feed := f0; pc := AtSelect; status := Running |}
                   = Some ({| db := db0; feed := f1; pc := AtTest pid; status := Running |}, [])).
      { rewrite Hfirst. unfold feeder_move, feeder_step. cbn [db pc]. now rewrite Hlen, Hpid. }
      destruct (isBlacklisted (dp f) pid) eqn:Hbl.
      * destruct (ReqNextPeer (dp f)) as [d'|] eqn:Hd; [|discriminate].
        injection Hon as <- <-.
        exists [(FeedRequest, []); (FeedContinue, []); (FeedContinue, [EvReqNextPeer])].
        split; [|split; [reflexivity | solve_only]].
        econstructor; [exact H1|].
        econstructor.
        { unfold step, feeder_move, feeder_step. cbn [status pc feed db dp f1]. reflexivity. }
        rewrite Hbl.
        econstructor; [|constructor].
        unfold step, feeder_move, feeder_step. cbn [status pc feed db dp f1]. now rewrite Hd.
      * destruct (send_peer (dp f) pid) as [d'|] eqn:Hd; [|discriminate].
        destruct (refresh_check_alone db0 _ _ _ _ Hon) as (tr & Hexec & Hevs & Honly).
        exists ((FeedRequest, []) :: (FeedContinue, []) :: (FeedContinue, [EvSend pid]) :: tr).
        split; [|split; [exact Hevs | solve_only]].
        econstructor; [exact H1|].
        econstructor.
        { unfold step, feeder_move, feeder_step. cbn [status pc feed db dp f1]. reflexivity. }
        rewrite Hbl.
        econstructor; [|exact Hexec].
        unfold step, feeder_move, feeder_step. cbn [status pc feed db dp f1]. now rewrite Hd.
    + destruct (ReqNextPeer (dp f)) as [d'|] eqn:Hd; [|discriminate].
      destruct (refresh_check_alone db0 _ _ _ _ Hon) as (tr & Hexec & Hevs & Honly).
      exists ((FeedRequest, []) :: (FeedContinue, [EvSleep minWaitTime; EvReqNextPeer]) :: tr).
      split; [|split; [exact Hevs | solve_only]].
      econstructor.
      { rewrite Hfirst. unfold feeder_move, feeder_step. cbn [db pc]. now rewrite Hlen. }
      econstructor; [|exact Hexec].
      unfold step, feeder_move, feeder_step. cbn [status pc feed db]. now rewrite Hd.
  - intros Hon. rewrite Hfirst. unfold feeder_move, feeder_step. cbn [db pc].
    destruct (negb (length (pArray (dp f)) =? 0)%nat).
    + destruct (pArray (dp f) !! pointer f) as [pid|]; [|reflexivity].
      destruct (isBlacklisted (dp f) pid).
      * destruct (ReqNextPeer (dp f)); discriminate.
      * destruct (send_peer (dp f) pid); [|discriminate].
        unfold refresh_check in Hon. destruct (_ || _); discriminate.
    + destruct (ReqNextPeer (dp f)); [|discriminate].
      unfold refresh_check in Hon. destruct (_ || _); discriminate.
Qed.

Lemma run_exec (acts : list Action) (s s' : system D) (tr : list (Action * list Event)) :
  run acts s = Some (tr, s') → exec s tr s'.
Proof.
  revert s tr. induction acts as [|a acts IH]; intros s tr; cbn [run].
  - intros [= <- <-]. constructor.
  - destruct (step a s) as [[s1 evs]|] eqn:Hstep; [|discriminate]. cbn.
    destruct (run acts s1) as [[tr1 s2]|] eqn:Hrun; [|discriminate]. cbn.
    intros [= <- <-]. econstructor; [exact Hstep | apply IH, Hrun].
Qed.

(** C2, as the code has it. With the refresh flag down: on an empty array
    a request makes the feed wait [minWaitTime], five seconds, re-issue
    the request, raise the flag and refresh; on an entry that is not
    blacklisted the feed sends it, advances the cursor and refreshes
    exactly when the advanced cursor is at or past the end of the array.
    A refresh appends to the array, after the entries it has, every peer
    that the database lists and loads, so that every known peer is in the
    array afterwards. *)
Theorem request_refresh (db : D) (f : feeder) :
  refreshFlag f = false →
  (pArray (dp f) = [] → (nPeerReq (dp f) < workers)%nat →
   on_request db f
   = Done ({| dp := refreshPeerList db (with_nPeerReq (dp f) (S (nPeerReq (dp f))));
              pointer := pointer f; refreshFlag := true |},
           [EvSleep minWaitTime; EvReqNextPeer; EvRefresh])
   ∧ minWaitTime = 5 * Second)
  ∧ (∀ pid,
       pArray (dp f) !! pointer f = Some pid →
       isBlacklisted (dp f) pid = false →
       (length (nPeerChan (dp f)) < workers)%nat →
       let sent := with_nPeerChan (dp f) (nPeerChan (dp f) ++ [pid]) in
       on_request db f
       = if (length (pArray (dp f)) <=? S (pointer f))%nat
         then Done ({| dp := refreshPeerList db sent; pointer := S (pointer f);
                       refreshFlag := false |}, [EvSend pid; EvRefresh])
         else Done ({| dp := sent; pointer := S (pointer f); refreshFlag := false |},
                    [EvSend pid]))
  ∧ (∀ d, refreshPeerList db d
          = with_pArray d (pArray d ++ List.filter (loadable db) (GetFilecoinPeers db)))
  ∧ (∀ d pid, known db pid → In pid (pArray (refreshPeerList db d))).
Proof.
  intros Hflag. repeat split.
  - unfold on_request. rewrite H. cbn [length Nat.eqb negb].
    unfold ReqNextPeer. apply Nat.ltb_lt in H0. rewrite H0.
    unfold refresh_check. cbn [refreshFlag orb dp pointer]. reflexivity.
  - intros pid Hpid Hbl Hroom. cbv zeta. unfold on_request.
    assert (Hne : (length (pArray (dp f)) =? 0)%nat = false).
    { apply lookup_lt_Some in Hpid. apply Nat.eqb_neq. lia. }
    rewrite Hne, Hpid, Hbl. cbn [negb].
    unfold send_peer. apply Nat.ltb_lt in Hroom. rewrite Hroom.
    unfold refresh_check. cbn [refreshFlag dp pointer with_nPeerChan pArray].
    rewrite Hflag. cbn [orb].
    destruct (length (pArray (dp f)) <=? S (pointer f))%nat; reflexivity.
  - apply refreshPeerList_spec.
  - intros d pid Hk. rewrite refreshPeerList_spec. cbn [with_pArray pArray].
    apply in_or_app. right. now apply known_loadable.
Qed.
End FeedFacts.

#[local] Existing Instance map_db.

(** C2, as it is stated, fails: on the array of the single peer of the
    database, with the cursor at the start, the request sends the peer and
    refreshes, and the array is then that peer twice. *)
Lemma request_as_specified_fails :
  ¬ request_as_specified Sample.db1 (Run (Sample.feed_of ["P1"%string] 0)).
Proof.
  intros Hspec.
  destruct (Hspec {| dp := {| pArray := ["P1"%string; "P1"%string]; blacklist := ∅;
                              nPeerChan := ["P1"%string]; nPeerReq := 0 |};
                     pointer := 1; refreshFlag := false |}
                  [EvSend "P1"; EvRefresh] eq_refl) as (_ & Hrebuilt & _).
  destruct Hrebuilt as [Hnodup _]; [right; left; reflexivity|].
  cbn in Hnodup. apply NoDup_cons_iff in Hnodup as [Hnotin _].
  apply Hnotin. now left.
Qed.

Section WorkerFacts.
Context {D : Type} {DB : FilecoinDB D}.
Variable peer_Decode : string → string.
Variable Connect : AddrInfo → option HostError.
Variable ExtractHostInfo : AddrInfo → FilecoinPeer.
Variable fetchNeighbors : AddrInfo → list AddrInfo.

#[local] Abbreviation worker := (crawlNetwork_worker peer_Decode Connect ExtractHostInfo fetchNeighbors).
#[local] Abbreviation dialed := (dialed peer_Decode).

Lemma ReqNextPeer_inv (d d' : discoveredPeers) :
  ReqNextPeer d = Some d' →
  d' = with_nPeerReq d (S (nPeerReq d)) ∧ (nPeerReq d < workers)%nat.
Proof.
  unfold ReqNextPeer. destruct (nPeerReq d <? workers)%nat eqn:Hroom; [|discriminate].
  intros [= <-]. apply Nat.ltb_lt in Hroom. auto.
Qed.


End WorkerFacts.


(** C9. Blacklisting a peer twice is blacklisting it once: the feed is in
    the same state, and every query of the blacklist has the same answer. *)
Theorem Blacklist_idempotent (d : discoveredPeers) (pid : string) :
  Blacklist (Blacklist d pid) pid = Blacklist d pid
  ∧ isBlacklisted (Blacklist (Blacklist d pid) pid) pid = true
  ∧ isBlacklisted (Blacklist d pid) pid = true
  ∧ ∀ q, isBlacklisted (Blacklist (Blacklist d pid) pid) q
         = isBlacklisted (Blacklist d pid) q.
Proof.
  assert (Heq : Blacklist (Blacklist d pid) pid = Blacklist d pid).
  { unfold Blacklist, with_blacklist. cbn. now rewrite insert_insert_eq. }
  assert (Hin : isBlacklisted (Blacklist d pid) pid = true).
  { unfold isBlacklisted, Blacklist. cbn. now rewrite lookup_insert_eq. }
  rewrite Heq. auto.
Qed.

(** The claims on the sample inputs. *)
Lemma request_refresh_witness :
  let f := Run (Sample.feed_of ["P1"%string] 0) in
  refreshFlag f = false
  ∧ on_request Sample.db1 f
    = Done ({| dp := {| pArray := ["P1"; "P1"]%string; blacklist := ∅;
                        nPeerChan := ["P1"%string]; nPeerReq := 0 |};
               pointer := 1; refreshFlag := false |},
            [EvSend "P1"; EvRefresh]).
Proof.
  cbv zeta. split; [reflexivity|].
  exact (proj1 (proj2 (request_refresh Sample.db1 (Run (Sample.feed_of ["P1"%string] 0))
                         eq_refl))
               "P1"%string eq_refl eq_refl ltac:(vm_compute; lia)).
Defined.

Lemma blacklisted_drains_witness :
  exec Sample.blacklisted_in_flight Sample.race_end Sample.drained
  ∧ isBlacklisted (dp (feed Sample.blacklisted_in_flight)) "P1" = true
  ∧ (sends Sample.race_end "P1" + pending Sample.drained "P1"
     = pending Sample.blacklisted_in_flight "P1")%nat
  ∧ (deliveries Sample.race_end "P1" + in_flight Sample.drained "P1"
     = in_flight Sample.blacklisted_in_flight "P1")%nat
  ∧ sends Sample.race_end "P1" = 1%nat
  ∧ deliveries Sample.race_end "P1" = 1%nat.
Proof.
  assert (Hexec : exec Sample.blacklisted_in_flight Sample.race_end Sample.drained)
    by (apply (run_exec [FeedContinue; WorkerReceive]); reflexivity).
  assert (Hbl : isBlacklisted (dp (feed Sample.blacklisted_in_flight)) "P1" = true)
    by reflexivity.
  split; [exact Hexec|]. split; [exact Hbl|].
  destruct (proj1 (blacklisted_drains _ _ _ "P1" Hexec) Hbl) as (_ & Hs & Hd).
  split; [exact Hs|]. split; [exact Hd|]. split; reflexivity.
Defined.



(** C4, as it is stated, fails. The feed of one peer serves a request:
    the peer is sent and a worker receives it, and the refresh appends it
    to the array once more. The feeder takes the next request, reads that
    entry and tests it; the worker, whose dial failed, calls [Blacklist]
    on the peer; the feeder then sends the entry it has tested, and a
    worker receives the blacklisted peer. *)
Lemma blacklisted_sent_after_call :
  ¬ blacklisted_never_emitted Sample.start_one.
Proof.
  intros Hspec.
  destruct (Hspec [(FeedRequest, []); (FeedContinue, []); (FeedContinue, [EvSend "P1"]);
                   (FeedContinue, [EvRefresh]); (FeedContinue, []); (FeedContinue, []);
                   (WorkerReceive, [EvReceive "P1"]);
                   (FeedRequest, []); (FeedContinue, [])]
                  "P1"%string Sample.race_end Sample.drained) as [Hsend _].
  - apply (run_exec Sample.race). vm_compute. reflexivity.
  - apply Hsend. now left.
Qed.

(** The feeder panics on the request that follows a blacklisted last
    entry: that request advances the cursor past the end of the array and
    goes round the refresh test. *)
Example blacklisted_last_entry_panics :
  ∃ tr s,
    run [FeedRequest; FeedContinue; FeedContinue; FeedContinue; FeedContinue;
         FeedContinue; WorkerReceive; WorkerBlacklist "P1"; WorkerReqNextPeer;
         FeedRequest; FeedContinue; FeedContinue; FeedRequest]
        {| db := Sample.db1; feed := Run (Sample.feed_of ["P1"%string] 1);
           pc := AtSelect; status := Running |}
    = Some (tr, s)
    ∧ status s = Panicked.
Proof. eexists. eexists. split; [vm_compute; reflexivity | reflexivity]. Qed.
End CrawlerSpec.

(** * Further properties of the code *)

(** ** The peer store: reads, writes and invariants *)

Module PeerStoreMore.
Import PeerStore PeerStoreSpec.

Section Facts.
Context {R : Type} {M : Peer.Methods R}.
Implicit Types (c : PeerStore R) (p : Peer R) (id : string).

(** X1. What is stored is what is read: [GetPeerData] finds a peer just
    stored under its id, the last store of an id wins, and the other ids
    read as before. *)
Theorem StorePeer_GetPeerData c p :
  GetPeerData (StorePeer c p) (Peer.PeerId p) = inl p
  ∧ (∀ q, Peer.PeerId q = Peer.PeerId p →
          GetPeerData (StorePeer (StorePeer c p) q) (Peer.PeerId p) = inl q)
  ∧ (∀ id, id ≠ Peer.PeerId p → GetPeerData (StorePeer c p) id = GetPeerData c id).
Proof.
  assert (Hget : ∀ c' q, GetPeerData (StorePeer c' q) (Peer.PeerId q) = inl q).
  { intros c' q. apply GetPeerData_present. rewrite Load_StorePeer.
    now rewrite decide_True. }
  split; [apply Hget|]. split.
  - intros q Hq. rewrite <- Hq. apply Hget.
  - intros id Hne. unfold GetPeerData. rewrite Load_StorePeer.
    now rewrite decide_False by congruence.
Qed.

(** X2. [StoreOrUpdatePeer] stores a peer that is new as it is given, and
    for a peer that is already stored it stores the old record after
    [FetchPeerInfoFromPeer] took the new information; no other id
    changes. *)
Theorem StoreOrUpdatePeer_lookup c p :
  (Load (Storage c) (Peer.PeerId p) = None →
   Load (Storage (StoreOrUpdatePeer c p)) (Peer.PeerId p) = Some p)
  ∧ (∀ old, Load (Storage c) (Peer.PeerId p) = Some old →
            Load (Storage (StoreOrUpdatePeer c p)) (Peer.PeerId p)
            = Some (Peer.FetchPeerInfoFromPeer old p))
  ∧ (∀ id, id ≠ Peer.PeerId p →
           Load (Storage (StoreOrUpdatePeer c p)) id = Load (Storage c) id).
Proof.
  unfold StoreOrUpdatePeer, GetPeerData.
  destruct (Load (Storage c) (Peer.PeerId p)) as [old|] eqn:Hold;
    cbn [with_Storage Storage]; repeat split.
  - discriminate.
  - intros old' [= <-]. rewrite Load_Store. now rewrite decide_True.
  - intros id Hne. rewrite Load_Store. now rewrite decide_False by congruence.
  - intros _. rewrite Load_Store. now rewrite decide_True.
  - discriminate.
  - intros id Hne. rewrite Load_Store. now rewrite decide_False by congruence.
Qed.

(** An event either leaves the store or stores one peer with [StorePeer]. *)
Lemma event_result_consistent c (r : option error * PeerStore R) :
  consistent c → (r = (fst r, c) ∨ ∃ p, r = (None, StorePeer c p)) → consistent (snd r).
Proof.
  intros Hc [-> | [p ->]]; cbn [snd]; [exact Hc | now apply StorePeer_consistent].
Qed.

Ltac event_shape :=
  match goal with
  | |- context [GetPeerData ?c ?id] =>
      destruct (GetPeerData c id); [right; eexists; reflexivity | left; reflexivity]
  end.

(** X3. Every peer stays stored under its own id: when the store is
    consistent, it is so after [StorePeer] and after every per-peer event,
    whatever the methods of the peer and the callback do. *)
Theorem events_keep_consistency c id p (now : Time)
        (direction topicName rec_err conErr : string) (success succeed : bool)
        (fn : ErrorHandling R) :
  consistent c →
  consistent (StorePeer c p)
  ∧ consistent (snd (ConnectionEvent now c id direction))
  ∧ consistent (snd (DisconnectionEvent now c id))
  ∧ consistent (snd (MetadataEvent c id success))
  ∧ consistent (snd (MessageEvent now c id topicName))
  ∧ consistent (snd (ConnectionAttemptEvent c id succeed conErr))
  ∧ consistent (snd (AddNewPosConnectionAttempt c id))
  ∧ consistent (snd (AddNewNegConnectionAttempt c id rec_err fn)).
Proof.
  intros Hc. split; [now apply StorePeer_consistent|].
  repeat split; apply (event_result_consistent c); try exact Hc;
    unfold ConnectionEvent, DisconnectionEvent, MetadataEvent, MessageEvent,
      ConnectionAttemptEvent, AddNewPosConnectionAttempt, AddNewNegConnectionAttempt;
    event_shape.
Qed.

Lemma NewPeerStore_memory_consistent (default_db_path : string)
      (disk : string → gmap string (Peer R)) (now : Time) (path : string) :
  consistent (NewPeerStore default_db_path disk now "memory" path).
Proof. intros key p. cbn. unfold Load. cbn. now rewrite lookup_empty. Qed.

(** One metadata event on a stored peer. *)
Lemma MetadataEvent_present c id p (success : bool) :
  Load (Storage c) id = Some p → Peer.PeerId p = id →
  MetadataEvent c id success
  = (None, StorePeer c (Peer.Make id true (success || Peer.MetadataSucceed p)
                                  (Peer.Attempted p) (Peer.Succeed p) (Peer.Attempts p)
                                  (Peer.Error p) (Peer.Rest p))).
Proof.
  intros Hload Hid. unfold MetadataEvent. rewrite (GetPeerData_present _ _ _ Hload).
  destruct p as [i mr ms a s n e r]. cbn in Hid. subst i.
  destruct success; reflexivity.
Qed.

(** X4. Metadata events on a stored peer: after any number of them (one at
    least) the request flag is up, the success flag is up exactly when it was
    up before or one of the events succeeded (a failure never lowers it),
    every other field of the peer is as it was, and so is every other
    peer. *)
Theorem metadata_events_present c id p (outcomes : list bool) :
  Load (Storage c) id = Some p → Peer.PeerId p = id → outcomes ≠ [] →
  Load (Storage (metadata_events c id outcomes)) id
  = Some (Peer.Make id true (existsb (fun b => b) outcomes || Peer.MetadataSucceed p)
                    (Peer.Attempted p) (Peer.Succeed p) (Peer.Attempts p)
                    (Peer.Error p) (Peer.Rest p))
  ∧ ∀ id', id' ≠ id →
           Load (Storage (metadata_events c id outcomes)) id' = Load (Storage c) id'.
Proof.
  intros Hload Hid Hne.
  destruct outcomes as [|o outcomes]; [congruence|]. clear Hne.
  revert c p o Hload Hid. induction outcomes as [|o' outcomes IH]; intros c p o Hload Hid.
  - unfold metadata_events. cbn [fold_left existsb].
    rewrite (MetadataEvent_present c id p o Hload Hid). cbn [snd].
    rewrite orb_false_r. split.
    + rewrite Load_StorePeer. cbn. now rewrite decide_True.
    + intros id' Hne. rewrite Load_StorePeer. cbn. now rewrite decide_False by congruence.
  - unfold metadata_events in *. cbn [fold_left].
    rewrite (MetadataEvent_present c id p o Hload Hid). cbn [snd].
    set (p1 := Peer.Make id true (o || Peer.MetadataSucceed p) (Peer.Attempted p)
                         (Peer.Succeed p) (Peer.Attempts p) (Peer.Error p) (Peer.Rest p)).
    assert (Hl1 : Load (Storage (StorePeer c p1)) id = Some p1).
    { rewrite Load_StorePeer. cbn. now rewrite decide_True. }
    destruct (IH (StorePeer c p1) p1 o' Hl1 eq_refl) as [Hid' Hother].
    cbn [fold_left] in Hid', Hother. split.
    + rewrite Hid'. subst p1. cbn [Peer.MetadataSucceed Peer.Attempted Peer.Succeed
                                    Peer.Attempts Peer.Error Peer.Rest existsb].
      do 2 f_equal. destruct o, o', (existsb (λ b, b) outcomes), (Peer.MetadataSucceed p);
        reflexivity.
    + intros id' Hne. rewrite (Hother id' Hne). rewrite Load_StorePeer. cbn.
      now rewrite decide_False by congruence.
Qed.

(** An attempt on a stored peer stores one peer, under the same id. *)
Lemma attempt_stores_under_id c id p (op : AttemptOp) :
  keeps_id Peer.AddPositiveConnAttempt → keeps_peer_id op →
  Load (Storage c) id = Some p → Peer.PeerId p = id →
  ∃ p', attempt c id op = (None, StorePeer c p') ∧ Peer.PeerId p' = id.
Proof.
  intros Hpos Hop Hload Hid.
  destruct op as [rec_err fn | ]; cbn [attempt keeps_peer_id] in *.
  - unfold AddNewNegConnectionAttempt. rewrite (GetPeerData_present _ _ _ Hload).
    cbv zeta. eexists. split; [reflexivity|]. rewrite Hop.
    peer_fields. destruct (Peer.Attempted p); cbn; exact Hid.
  - unfold AddNewPosConnectionAttempt. rewrite (GetPeerData_present _ _ _ Hload).
    cbv zeta. eexists. split; [reflexivity|]. rewrite Hpos.
    peer_fields. destruct (Peer.Attempted p); cbn; exact Hid.
Qed.

(** X5. Connection attempts on a stored peer leave every other peer as it
    was, whatever the callbacks and [AddPositiveConnAttempt] do to the
    record, as long as they keep its id. *)
Theorem attempts_frame c id p (ops : list AttemptOp) :
  keeps_id Peer.AddPositiveConnAttempt →
  Forall keeps_peer_id ops →
  Load (Storage c) id = Some p → Peer.PeerId p = id →
  ∀ id', id' ≠ id → Load (Storage (attempts c id ops)) id' = Load (Storage c) id'.
Proof.
  intros Hpos Hops. revert c p.
  induction Hops as [|op ops Hop Hops IH]; intros c p Hload Hid id' Hne.
  - reflexivity.
  - destruct (attempt_stores_under_id c id p op Hpos Hop Hload Hid) as (p1 & Heq & Hi1).
    assert (Hl1 : Load (Storage (snd (attempt c id op))) id = Some p1).
    { rewrite Heq. cbn [snd]. rewrite Load_StorePeer, Hi1. now rewrite decide_True. }
    unfold attempts in *. cbn [fold_left].
    rewrite (IH _ p1 Hl1 Hi1 id' Hne). rewrite Heq. cbn [snd].
    rewrite Load_StorePeer. rewrite Hi1. now rewrite decide_False by congruence.
Qed.
End Facts.
End PeerStoreMore.

(** ** The peer store: operations over the whole store *)

Module PeerStoreRange.
Import PeerStore PeerStoreSpec.

Section Facts.
Context {R : Type} {M : Peer.Methods R}.
Implicit Types (c : PeerStore R) (p : Peer R) (id : string).

(** A callback that never stops the range folds over the entries. *)
Lemma range_list_fold {S : Type} (f : string → Peer R → S → S * bool)
      (l : list (string * Peer R)) (s : S) :
  (∀ k v s, snd (f k v s) = true) →
  range_list f l s = fold_left (fun s kv => fst (f kv.1 kv.2 s)) l s.
Proof.
  intros Hgo. revert s. induction l as [|[k v] l IH]; intros s; cbn [range_list fold_left].
  - reflexivity.
  - specialize (Hgo k v s). cbn [fst snd]. destruct (f k v s) as [s' go].
    cbn [fst snd] in *. subst go. apply IH.
Qed.

Lemma fold_store_other (g : Peer R → Peer R) (l : list (string * Peer R))
      (db : PeerStoreStorage R) (key : string) :
  key ∉ l.*1 →
  Load (fold_left (fun db kv => Store db kv.1 (g kv.2)) l db) key = Load db key.
Proof.
  revert db. induction l as [|[k v] l IH]; intros db Hnot; cbn [fold_left].
  - reflexivity.
  - cbn in Hnot. rewrite not_elem_of_cons in Hnot. destruct Hnot as [Hne Hnot].
    rewrite IH by exact Hnot. rewrite Load_Store. cbn.
    now rewrite decide_False by congruence.
Qed.

Lemma fold_store_found (g : Peer R → Peer R) (l : list (string * Peer R))
      (db : PeerStoreStorage R) (key : string) (v : Peer R) :
  NoDup l.*1 → (key, v) ∈ l →
  Load (fold_left (fun db kv => Store db kv.1 (g kv.2)) l db) key = Some (g v).
Proof.
  revert db. induction l as [|[k w] l IH]; intros db Hnd Hin; cbn [fold_left].
  - now apply elem_of_nil in Hin.
  - cbn in Hnd. apply NoDup_cons in Hnd as [Hnot Hnd].
    apply elem_of_cons in Hin as [[= -> ->] | Hin].
    + rewrite fold_store_other by exact Hnot. rewrite Load_Store. cbn.
      now rewrite decide_True.
    + now apply IH.
Qed.

(** X6. [ResetDynamicMetrics] resets every stored peer and nothing else:
    under each id the store then holds the reset of the peer it held, ids
    that were absent stay absent, and the backend and the other fields of
    the store are as they were. *)
Theorem ResetDynamicMetrics_lookup c :
  (∀ key, Load (Storage (ResetDynamicMetrics c)) key
          = Peer.ResetDynamicMetrics <$> Load (Storage c) key)
  ∧ StartTime (ResetDynamicMetrics c) = StartTime c
  ∧ MsgNotChannels (ResetDynamicMetrics c) = MsgNotChannels c.
Proof.
  unfold ResetDynamicMetrics, Range. cbn [with_Storage Storage StartTime MsgNotChannels].
  rewrite range_list_fold by reflexivity. cbn [fst].
  split; [|split; reflexivity].
  intros key. unfold Load at 2.
    destruct (contents (Storage c) !! key) as [v|] eqn:Hkey; cbn [fmap option_fmap option_map].
  - apply fold_store_found.
    + apply NoDup_fst_map_to_list.
    + now apply elem_of_map_to_list.
  - rewrite fold_store_other; [exact Hkey|].
    intros Hin. apply list_elem_of_fmap in Hin as [[k v] [-> Hin]].
    apply elem_of_map_to_list in Hin. cbn in Hkey. congruence.
Qed.


Lemma fold_count_error (e : string) (l : list (string * Peer R)) (acc : gmap string N) :
  let n := N.of_nat (length (List.filter (fun kv => String.eqb (Peer.Error kv.2) e) l)) in
  fold_left count_error l acc !! e
  = if (n =? 0)%N then acc !! e
    else Some ((default 0%N (acc !! e) + n) mod 2 ^ 64)%N.
Proof.
  cbv zeta. revert acc. induction l as [|kv l IH]; intros acc; cbn [fold_left List.filter].
  - reflexivity.
  - rewrite IH. unfold count_error.
    destruct (String.eqb (Peer.Error kv.2) e) eqn:He.
    + apply String.eqb_eq in He. rewrite He. rewrite lookup_insert_eq. cbn [default length].
      set (n := length (List.filter _ l)).
      replace (N.of_nat (S n) =? 0)%N with false by (symmetry; apply N.eqb_neq; lia).
      destruct (N.of_nat n =? 0)%N eqn:Hn.
      * apply N.eqb_eq in Hn. unfold id. f_equal. f_equal. lia.
      * f_equal. unfold id. rewrite N.Div0.add_mod_idemp_l. f_equal. lia.
    + apply String.eqb_neq in He. now rewrite lookup_insert_ne.
Qed.

(** X7. [GetErrorCounter] counts the peers by their stored error: the
    entry of an error is the number of stored peers that carry it (modulo
    2^64, the counter being a [uint64]), and an error that no peer carries
    has no entry. *)
Theorem GetErrorCounter_count (gm : PeerStore R) (e : string) :
  let n := N.of_nat (size (filter (fun kv : string * Peer R => Peer.Error kv.2 = e)
                                  (contents (Storage gm)))) in
  GetErrorCounter gm !! e = if (n =? 0)%N then None else Some (n mod 2 ^ 64)%N.
Proof.
  cbv zeta. unfold GetErrorCounter, Range.
  rewrite range_list_fold by reflexivity. cbn [fst].
  change (fold_left _ ?l ∅) with (fold_left count_error l ∅).
  rewrite fold_count_error. rewrite lookup_empty. cbn [default]. rewrite N.add_0_l.
  assert (Hsize : size (filter (fun kv : string * Peer R => Peer.Error kv.2 = e)
                               (contents (Storage gm)))
                  = length (List.filter (fun kv : string * Peer R => String.eqb (Peer.Error kv.2) e)
                                        (map_to_list (contents (Storage gm))))).
  { rewrite map_filter_alt. rewrite map_size_list_to_map.
    - generalize (map_to_list (contents (Storage gm))). intros l.
      induction l as [|kv l IH]; [reflexivity|].
      cbn [List.filter]. rewrite filter_cons.
      destruct (String.eqb (Peer.Error kv.2) e) eqn:He.
      + apply String.eqb_eq in He. rewrite decide_True by exact He. cbn. now rewrite IH.
      + apply String.eqb_neq in He. now rewrite decide_False by exact He.
    - apply (sublist_NoDup _ (map_to_list (contents (Storage gm))).*1);
        [apply NoDup_fst_map_to_list|].
      apply fmap_sublist, sublist_filter. }
  now rewrite Hsize.
Qed.

Section Exporting.
Variable ToCsvLine : Peer R → string.
Variable Create : string → option error.
Variable WriteString : nat → string → option error.

Lemma export_range (l : list (string * Peer R)) (err : option error) (texts : list string) :
  range_list
    (fun _ value '(_, texts) =>
       ((WriteString (length texts) (ToCsvLine value), texts ++ [ToCsvLine value]), true))
    l (err, texts)
  = (match last l with
     | None => err
     | Some kv => WriteString (length texts + length l - 1) (ToCsvLine kv.2)
     end,
     texts ++ map (fun kv => ToCsvLine kv.2) l).
Proof.
  revert err texts. induction l as [|[k v] l IH]; intros err texts; cbn [range_list].
  - cbn. now rewrite app_nil_r.
  - rewrite IH. rewrite length_app. cbn [length map]. rewrite <- app_assoc. cbn [app].
    f_equal. destruct l as [|kv l].
    + cbn [last length]. f_equal. lia.
    + rewrite last_cons_cons.
      destruct (last (kv :: l)) as [kv'|] eqn:Hlast.
      * cbn [length]. f_equal. lia.
      * apply last_None in Hlast. discriminate.
Qed.

(** X8. [ExportToCSV]: when the file does not open nothing is written and
    the error is returned wrapped; when it opens, the titles and then one
    line for each stored peer are written, and the error returned is the
    wrapped error of the write of the last peer's line: [nil] when that
    write succeeded or when the store is empty, whatever became of the
    titles and of the earlier lines. *)
Theorem ExportToCSV_result c (filePath : string) :
  let peers := (map_to_list (contents (Storage c))).*2 in
  (∀ err, Create filePath = Some err →
          ExportToCSV ToCsvLine Create WriteString c filePath
          = (Some ("error opening the file " +:+ filePath +:+ ": " +:+ err), []))
  ∧ (Create filePath = None →
     snd (ExportToCSV ToCsvLine Create WriteString c filePath)
     = csv_titles :: map ToCsvLine peers
     ∧ fst (ExportToCSV ToCsvLine Create WriteString c filePath)
       = match last peers with
         | None => None
         | Some p => Wrap (WriteString (length peers) (ToCsvLine p))
                          "could not export peer metrics"
         end).
Proof.
  cbv zeta. unfold ExportToCSV, Range. split.
  - intros err ->. reflexivity.
  - intros ->. cbv zeta. rewrite export_range.
    set (l := map_to_list (contents (Storage c))).
    assert (Hlast : last l.*2 = snd <$> last l) by apply fmap_last.
    rewrite Hlast. rewrite length_fmap.
    assert (Hmap : map (fun kv : string * Peer R => ToCsvLine kv.2) l = map ToCsvLine l.*2).
    { clearbody l. clear Hlast. induction l as [|kv l IH]; [reflexivity|].
      cbn. now rewrite IH. }
    destruct (last l) as [kv|] eqn:Hl; cbn [fmap option_fmap option_map].
    + replace (length [csv_titles] + length l - 1)%nat with (length l) by (cbn; lia).
      destruct (WriteString (length l) (ToCsvLine kv.2)) as [e|];
        cbn [fst snd app]; rewrite Hmap; split; reflexivity.
    + cbn [fst snd app]. rewrite Hmap. split; reflexivity.
Qed.
End Exporting.
End Facts.
End PeerStoreRange.

(** ** The message id *)

Module GossipMore.
Import Gossip Base64 Base64Facts.

(** X9. Two messages have the same id exactly when their data have the
    same SHA-256 digest: the encoding of the digest adds no collision. *)
Theorem MsgIDFunction_eq_iff (m1 m2 : Message) :
  MsgIDFunction m1 = MsgIDFunction m2
  ↔ SHA256.Sum256 (Data m1) = SHA256.Sum256 (Data m2).
Proof.
  assert (Hdec : ∀ m, DecodeString URLEncoding (MsgIDFunction m)
                      = Some (SHA256.Sum256 (Data m))).
  { intros m. apply DecodeString_EncodeToString; [apply URLEncoding_ok|].
    eexists. reflexivity. }
  split.
  - intros Heq. pose proof (Hdec m1) as H1. rewrite Heq, Hdec in H1. congruence.
  - intros Heq. rewrite !GossipSpec.MsgIDFunction_unfold. now rewrite Heq.
Qed.
End GossipMore.

(** ** The feed *)

Module CrawlerMore.
Import Crawler CrawlerSpec.

(** X10. [Blacklist] adds one id and nothing else: an id is blacklisted
    afterwards exactly when it is the one added or was blacklisted before;
    the order of two calls does not matter; the array and the channels are
    not touched. *)
Theorem Blacklist_lookup (d : discoveredPeers) (p q : string) :
  (isBlacklisted (Blacklist d p) q = true ↔ q = p ∨ isBlacklisted d q = true)
  ∧ Blacklist (Blacklist d p) q = Blacklist (Blacklist d q) p
  ∧ pArray (Blacklist d p) = pArray d
  ∧ nPeerChan (Blacklist d p) = nPeerChan d
  ∧ nPeerReq (Blacklist d p) = nPeerReq d.
Proof.
  split; [|split; [|repeat split]].
  - unfold isBlacklisted, Blacklist. cbn.
    destruct (decide (p = q)) as [->|Hne].
    + rewrite lookup_insert_eq. split; auto.
    + rewrite lookup_insert_ne by exact Hne.
      split; [auto | intros [-> | H]; [congruence | exact H]].
  - unfold Blacklist, with_blacklist. cbn. f_equal.
    destruct (decide (p = q)) as [->|Hne]; [reflexivity|].
    now apply insert_insert_ne.
Qed.

Section FeedMore.
Context {D : Type} {DB : FilecoinDB D}.

(** X11. A new feed holds the known peers of the database, in the order
    the database lists them, and nothing is blacklisted, queued or
    requested. *)
Theorem NewDiscoveryPeers_initial (db : D) :
  pArray (NewDiscoveryPeers db) = List.filter (loadable db) (GetFilecoinPeers db)
  ∧ (∀ pid, In pid (pArray (NewDiscoveryPeers db)) ↔ known db pid)
  ∧ (∀ pid, isBlacklisted (NewDiscoveryPeers db) pid = false)
  ∧ nPeerChan (NewDiscoveryPeers db) = []
  ∧ nPeerReq (NewDiscoveryPeers db) = 0%nat.
Proof.
  unfold NewDiscoveryPeers. rewrite refreshPeerList_spec.
  cbn [with_pArray pArray blacklist nPeerChan nPeerReq app].
  split; [reflexivity|]. split; [|split; [|split; reflexivity]].
  - intros pid. symmetry. apply known_loadable.
  - intros pid. unfold isBlacklisted. cbn. now rewrite lookup_empty.
Qed.

(** X12. A blacklisted entry is skipped: the feeder sends nothing, puts the
    request back and advances the cursor; it does not refresh, not even
    when the cursor has reached the end of the array or the flag is up. *)
Theorem blacklisted_entry_skipped (db : D) (f : feeder) (pid : string) :
  pArray (dp f) !! pointer f = Some pid →
  isBlacklisted (dp f) pid = true →
  (nPeerReq (dp f) < workers)%nat →
  on_request db f
  = Done ({| dp := with_nPeerReq (dp f) (S (nPeerReq (dp f)));
             pointer := S (pointer f); refreshFlag := refreshFlag f |},
          [EvReqNextPeer]).
Proof.
  intros Hpid Hbl Hroom. unfold on_request.
  assert (Hne : (length (pArray (dp f)) =? 0)%nat = false).
  { apply lookup_lt_Some in Hpid. apply Nat.eqb_neq. lia. }
  rewrite Hne, Hpid, Hbl. cbn [negb]. unfold ReqNextPeer.
  apply Nat.ltb_lt in Hroom. now rewrite Hroom.
Qed.

(** X13. The feeder panics on a request exactly when the array is not
    empty and the cursor is at or past its end. *)
Theorem on_request_panics (db : D) (f : feeder) :
  on_request db f = Panic
  ↔ pArray (dp f) ≠ [] ∧ (length (pArray (dp f)) ≤ pointer f)%nat.
Proof.
  unfold on_request, refresh_check.
  destruct (pArray (dp f)) as [|x a] eqn:Ha.
  - cbn [length Nat.eqb negb]. split; [|intros [[] _]; reflexivity].
    destruct (ReqNextPeer (dp f)); [|discriminate].
    destruct (_ || _); discriminate.
  - cbn [length Nat.eqb negb].
    destruct ((x :: a) !! pointer f) as [pid|] eqn:Hpid.
    + apply lookup_lt_Some in Hpid. cbn [length] in Hpid.
      split; [|intros [_ Hle]; lia].
      destruct (isBlacklisted (dp f) pid).
      * destruct (ReqNextPeer (dp f)); discriminate.
      * destruct (send_peer (dp f) pid); [|discriminate].
        destruct (_ || _); discriminate.
    + apply lookup_ge_None in Hpid. cbn [length] in Hpid.
      split; [intros _; split; [discriminate | exact Hpid] | reflexivity].
Qed.
End FeedMore.
End CrawlerMore.

(** ** Executions of the feed *)

Module CrawlerRuns.
Import Crawler CrawlerSpec.

Section FeedRuns.
Context {D : Type} {DB : FilecoinDB D}.

Lemma refresh_check_cases (db : D) (f f' : feeder) (evs evs' : list Event) :
  refresh_check db f evs = Done (f', evs') →
  (f' = f ∧ evs' = evs ∧ refreshFlag f = false
   ∧ (pointer f < length (pArray (dp f)))%nat)
  ∨ (f' = {| dp := with_pArray (dp f)
                     (pArray (dp f) ++ List.filter (loadable db) (GetFilecoinPeers db));
             pointer := pointer f; refreshFlag := refreshFlag f |}
     ∧ evs' = evs ++ [EvRefresh]
     ∧ (refreshFlag f = true ∨ (length (pArray (dp f)) ≤ pointer f)%nat)).
Proof.
  unfold refresh_check. rewrite refreshPeerList_spec.
  destruct (refreshFlag f) eqn:Hflag; cbn [orb].
  - intros [= <- <-]. right. auto.
  - destruct (length (pArray (dp f)) <=? pointer f)%nat eqn:Hle.
    + apply Nat.leb_le in Hle. intros [= <- <-]. right. auto.
    + apply Nat.leb_gt in Hle. intros [= <- <-]. left. auto.
Qed.

Lemma on_request_cases (db : D) (f f' : feeder) (evs : list Event) :
  on_request db f = Done (f', evs) →
  (∃ pid, pArray (dp f) !! pointer f = Some pid ∧ isBlacklisted (dp f) pid = true
          ∧ f' = {| dp := with_nPeerReq (dp f) (S (nPeerReq (dp f)));
                    pointer := S (pointer f); refreshFlag := refreshFlag f |}
          ∧ evs = [EvReqNextPeer])
  ∨ (∃ pid, pArray (dp f) !! pointer f = Some pid ∧ isBlacklisted (dp f) pid = false
            ∧ refresh_check db {| dp := with_nPeerChan (dp f) (nPeerChan (dp f) ++ [pid]);
                                  pointer := S (pointer f);
                                  refreshFlag := refreshFlag f |} [EvSend pid]
              = Done (f', evs))
  ∨ (pArray (dp f) = []
     ∧ refresh_check db {| dp := with_nPeerReq (dp f) (S (nPeerReq (dp f)));
                           pointer := pointer f; refreshFlag := true |}
                     [EvSleep minWaitTime; EvReqNextPeer]
       = Done (f', evs)).
Proof.
  unfold on_request.
  destruct (pArray (dp f)) as [|x a] eqn:Ha; cbn [length Nat.eqb negb].
  - unfold ReqNextPeer. destruct (nPeerReq (dp f) <? workers)%nat; [|discriminate].
    intros H. right. right. auto.
  - destruct ((x :: a) !! pointer f) as [pid|] eqn:Hpid; [|discriminate].
    destruct (isBlacklisted (dp f) pid) eqn:Hbl.
    + unfold ReqNextPeer. destruct (nPeerReq (dp f) <? workers)%nat; [|discriminate].
      intros [= <- <-]. left. eauto.
    + unfold send_peer. destruct (length (nPeerChan (dp f)) <? workers)%nat; [|discriminate].
      intros H. right. left. eauto.
Qed.

(** What a served request keeps. *)
Lemma on_request_keeps (db : D) (f f' : feeder) (evs : list Event) :
  on_request db f = Done (f', evs) →
  pArray (dp f) `prefix_of` pArray (dp f')
  ∧ (pointer f ≤ pointer f')%nat
  ∧ ((pointer f ≤ length (pArray (dp f)))%nat →
     (pointer f' ≤ length (pArray (dp f')))%nat)
  ∧ (refreshFlag f = true → refreshFlag f' = true).
Proof.
  intros Hreq. apply on_request_cases in Hreq
    as [(pid & Hpid & _ & -> & _) | [(pid & Hpid & _ & Hrc) | (Ha & Hrc)]].
  - apply lookup_lt_Some in Hpid. cbn. repeat split; auto; lia.
  - apply lookup_lt_Some in Hpid.
    apply refresh_check_cases in Hrc as [(-> & _) | (-> & _)]; cbn.
    + repeat split; auto; lia.
    + repeat split; auto; try lia.
      * now apply prefix_app_r.
      * intros _. rewrite length_app. lia.
  - apply refresh_check_cases in Hrc as [(-> & _ & Hflag & _) | (-> & _)]; cbn.
    + discriminate.
    + rewrite Ha. cbn. repeat split; auto.
      * apply prefix_nil.
      * intros Hle. cbn in Hle. lia.
Qed.

Lemma step_keeps (a : Action) (s s' : system D) (evs : list Event) :
  step a s = Some (s', evs) →
  pArray (dp (feed s)) `prefix_of` pArray (dp (feed s'))
  ∧ (pointer (feed s) ≤ pointer (feed s'))%nat
  ∧ ((pointer (feed s) ≤ length (pArray (dp (feed s))))%nat →
     (pointer (feed s') ≤ length (pArray (dp (feed s'))))%nat)
  ∧ (refreshFlag (feed s) = true → refreshFlag (feed s') = true).
Proof.
  intros Hstep. step_inv Hstep;
    cbn [db feed pc status dp pointer refreshFlag pArray blacklist nPeerChan nPeerReq
         with_dp with_pArray with_blacklist with_nPeerChan with_nPeerReq Blacklist];
    repeat match goal with
           | H : _ !! _ = Some _ |- _ => apply lookup_lt_Some in H
           end;
    rewrite ?length_app; cbn [length];
    (split; [first [reflexivity | now apply prefix_app_r] |]);
    repeat split; auto; lia.
Qed.

(** X14. In every execution the array of the feed only grows at its end
    and the cursor never moves back: the array at the start is a prefix of
    the array at the end; a cursor that was within the array or at its end
    is so at the end; and the refresh flag, once up, stays up. *)
Theorem feed_array_append_only (s s' : system D) (tr : list (Action * list Event)) :
  exec s tr s' →
  pArray (dp (feed s)) `prefix_of` pArray (dp (feed s'))
  ∧ (pointer (feed s) ≤ pointer (feed s'))%nat
  ∧ ((pointer (feed s) ≤ length (pArray (dp (feed s))))%nat →
     (pointer (feed s') ≤ length (pArray (dp (feed s'))))%nat)
  ∧ (refreshFlag (feed s) = true → refreshFlag (feed s') = true).
Proof.
  induction 1 as [s | s a evs s1 tr s2 Hstep Hexec IH].
  - repeat split; auto.
  - apply step_keeps in Hstep as (Hp & Hc & Hb & Hf).
    destruct IH as (Hp' & Hc' & Hb' & Hf').
    repeat split; auto.
    + now transitivity (pArray (dp (feed s1))).
    + lia.
Qed.

(** A cursor inside the array finds an entry: the request does not panic. *)
Lemma on_request_inside (db : D) (f : feeder) :
  (pointer f < length (pArray (dp f)))%nat → on_request db f ≠ Panic.
Proof.
  intros Hin. destruct (lookup_lt_is_Some_2 _ _ Hin) as [pid Hpid].
  unfold on_request, refresh_check. rewrite Hpid.
  destruct (length (pArray (dp f)) =? 0)%nat eqn:Hz; [apply Nat.eqb_eq in Hz; lia|].
  cbn [negb]. destruct (isBlacklisted (dp f) pid).
  - destruct (ReqNextPeer (dp f)); discriminate.
  - destruct (send_peer (dp f) pid); [|discriminate].
    destruct (_ || _); discriminate.
Qed.

(** X15. A request served while the database knows a peer leaves the
    cursor inside the array: after an entry that is not blacklisted was
    sent, and after the wait on an empty array with the cursor at the
    start, the next request finds an entry under the cursor. *)
Theorem served_request_keeps_cursor_inside (db : D) (f f' : feeder) (evs : list Event)
        (q : string) :
  known db q →
  on_request db f = Done (f', evs) →
  (∃ pid, pArray (dp f) !! pointer f = Some pid ∧ isBlacklisted (dp f) pid = false)
  ∨ (pArray (dp f) = [] ∧ pointer f = 0%nat) →
  (pointer f' < length (pArray (dp f')))%nat
  ∧ on_request db f' ≠ Panic.
Proof.
  intros Hq Hreq Hcase.
  assert (Hlen : (0 < length (List.filter (loadable db) (GetFilecoinPeers db)))%nat).
  { apply known_loadable in Hq.
    destruct (List.filter (loadable db) (GetFilecoinPeers db)); [destruct Hq | cbn; lia]. }
  assert (Hin : (pointer f' < length (pArray (dp f')))%nat).
  { apply on_request_cases in Hreq
      as [(pid & Hpid & Hbl & _) | [(pid & Hpid & _ & Hrc) | (Ha & Hrc)]].
    - destruct Hcase as [(pid' & Hpid' & Hbl') | [Ha _]]; [|rewrite Ha in Hpid; discriminate].
      congruence.
    - apply lookup_lt_Some in Hpid.
      apply refresh_check_cases in Hrc as [(-> & _ & _ & Hlt) | (-> & _)]; cbn in *.
      + exact Hlt.
      + rewrite length_app. lia.
    - destruct Hcase as [(pid' & Hpid' & _) | [_ Hzero]]; [rewrite Ha in Hpid'; discriminate|].
      apply refresh_check_cases in Hrc as [(-> & _ & Hflag & _) | (-> & _)]; cbn in *.
      + discriminate.
      + rewrite length_app. lia. }
  split; [exact Hin|]. now apply on_request_inside.
Qed.

(** X16. The refresh flag is raised by a request on an empty array and by
    nothing else, and it is never lowered; while it is up, every request
    that sends an entry appends the known peers of the database to the
    array once more. *)
Theorem refresh_flag_sticky (db : D) (f f' : feeder) (evs : list Event) :
  on_request db f = Done (f', evs) →
  (refreshFlag f' = true ↔ refreshFlag f = true ∨ pArray (dp f) = [])
  ∧ (refreshFlag f = true →
     ∀ pid, In (EvSend pid) evs →
            evs = [EvSend pid; EvRefresh]
            ∧ pArray (dp f')
              = pArray (dp f) ++ List.filter (loadable db) (GetFilecoinPeers db)).
Proof.
  intros Hreq. apply on_request_cases in Hreq
    as [(pid & Hpid & _ & -> & ->) | [(pid & Hpid & _ & Hrc) | (Ha & Hrc)]].
  - cbn. split.
    + split; [auto | intros [H | H]; [exact H | rewrite H in Hpid; discriminate]].
    + intros _ q [Hq | []]. discriminate.
  - apply refresh_check_cases in Hrc as [(-> & -> & Hflag & _) | (-> & -> & _)]; cbn in *.
    + split; [|congruence].
      split; [auto | intros [H | H]; [exact H | rewrite H in Hpid; discriminate]].
    + split.
      * split; [auto | intros [H | H]; [exact H | rewrite H in Hpid; discriminate]].
      * intros _ q [[= <-] | [Hq | []]]; [auto | discriminate].
  - apply refresh_check_cases in Hrc as [(-> & -> & Hflag & _) | (-> & -> & _)]; cbn in *.
    + discriminate.
    + split; [split; auto|].
      intros _ q [Hq | [Hq | [Hq | []]]]; discriminate.
Qed.

Lemma step_blacklist_back (a : Action) (s s' : system D) (evs : list Event) (pid : string) :
  step a s = Some (s', evs) →
  isBlacklisted (dp (feed s')) pid = true →
  isBlacklisted (dp (feed s)) pid = true ∨ a = WorkerBlacklist pid.
Proof.
  intros Hstep. unfold isBlacklisted.
  destruct (step_blacklist_cases a s s' evs Hstep) as [[-> _] | (q & -> & ->)]; [auto|].
  destruct (decide (q = pid)) as [->|Hne]; [auto|].
  rewrite lookup_insert_ne by exact Hne. auto.
Qed.

(** X17. The blacklist of an execution is the blacklist at its start and
    the ids on which a worker called [Blacklist]: nothing is ever taken off
    it, and the feeder puts nothing on it. *)
Theorem blacklist_of_execution (s s' : system D) (tr : list (Action * list Event))
        (pid : string) :
  exec s tr s' →
  (isBlacklisted (dp (feed s')) pid = true
   ↔ isBlacklisted (dp (feed s)) pid = true ∨ In (WorkerBlacklist pid) (map fst tr)).
Proof.
  intros Hexec. split; [|now apply exec_blacklist].
  induction Hexec as [s | s a evs s1 tr s2 Hstep Hexec IH].
  - auto.
  - intros Hbl. destruct (IH Hbl) as [H1 | Hin].
    + destruct (step_blacklist_back a s s1 evs pid Hstep H1) as [H0 | ->].
      * now left.
      * right. now left.
    + right. now right.
Qed.
End FeedRuns.
End CrawlerRuns.

(** ** The workers *)

Module CrawlerWorkers.
Import Crawler CrawlerSpec.

Section WorkerMore.
Context {D : Type} {DB : FilecoinDB D}.
Variable peer_Decode : string → string.
Variable Connect : AddrInfo → option HostError.
Variable ExtractHostInfo : AddrInfo → FilecoinPeer.
Variable fetchNeighbors : AddrInfo → list AddrInfo.

#[local] Abbreviation worker :=
  (crawlNetwork_worker peer_Decode Connect ExtractHostInfo fetchNeighbors).

(** X18. Whatever path it takes, a worker iteration that completes hands
    the feed exactly one new request, as its last act; it leaves the array
    and the output channel alone, and the only id it can add to the
    blacklist is the one it was given. If the request channel is full the
    iteration does not complete. *)
Theorem worker_reissues_request (pid : string) (db : D) (d : discoveredPeers) :
  (∀ db' d', snd (worker pid db d) = Some (db', d') →
             nPeerReq d' = S (nPeerReq d)
             ∧ pArray d' = pArray d
             ∧ nPeerChan d' = nPeerChan d
             ∧ (∀ q, q ≠ pid → isBlacklisted d' q = isBlacklisted d q)
             ∧ (isBlacklisted d pid = true → isBlacklisted d' pid = true))
  ∧ last (fst (worker pid db d)) = Some EvReqNextPeer
  ∧ ((workers ≤ nPeerReq d)%nat → snd (worker pid db d) = None).
Proof.
  assert (Hreq : ∀ d0 (db0 : D) db' d',
             (d1 ← ReqNextPeer d0; Some (db0, d1)) = Some (db', d') →
             d' = with_nPeerReq d0 (S (nPeerReq d0))).
  { intros d0 db0 db' d'. destruct (ReqNextPeer d0) as [d1|] eqn:H; [|discriminate].
    cbn. intros [= <- <-]. now apply ReqNextPeer_inv in H as [-> _]. }
  assert (Hfull : ∀ d0 (db0 : D), (workers ≤ nPeerReq d0)%nat →
                                  (d1 ← ReqNextPeer d0; Some (db0, d1)) = None).
  { intros d0 db0 Hle. unfold ReqNextPeer.
    apply Nat.ltb_ge in Hle. now rewrite Hle. }
  unfold crawlNetwork_worker. cbv zeta.
  destruct (length _ =? 0)%nat.
  - cbn [fst snd]. split; [|split; [reflexivity | apply Hfull]].
    intros db' d' H. apply Hreq in H as ->. cbn. auto.
  - destruct (Connect _) as [err|].
    + cbn [fst snd]. split; [|split; [reflexivity | apply (Hfull (Blacklist d pid))]].
      intros db' d' H. apply Hreq in H as ->. cbn. repeat split.
      * intros q Hne. unfold isBlacklisted. cbn.
        now rewrite lookup_insert_ne by congruence.
      * intros _. unfold isBlacklisted. cbn. now rewrite lookup_insert_eq.
    + cbn [fst snd]. split; [|split; [reflexivity | apply Hfull]].
      intros db' d' H. apply Hreq in H as ->. cbn. auto.
Qed.
End WorkerMore.

#[local] Existing Instance map_db.

(** On a database that is a map, the known peers are its keys. *)
Lemma map_db_known (db : gmap string FilecoinPeer) (k : string) :
  known db k ↔ is_Some (db !! k).
Proof.
  unfold known. cbn. split; [tauto|]. intros [p Hp]. split; [|eauto].
  apply list_elem_of_In. apply list_elem_of_fmap. exists (k, p).
  split; [reflexivity|]. now apply elem_of_map_to_list.
Qed.

Section Neighbours.
Variable peer_Decode : string → string.
Variable Connect : AddrInfo → option HostError.
Variable ExtractHostInfo : AddrInfo → FilecoinPeer.
Variable fetchNeighbors : AddrInfo → list AddrInfo.

#[local] Abbreviation store_info :=
  (fun (db : gmap string FilecoinPeer) (pi : AddrInfo) =>
     <[PeerId (ExtractHostInfo pi) := ExtractHostInfo pi]> db).

Lemma fold_store_info_other (l : list AddrInfo) (db : gmap string FilecoinPeer) (k : string) :
  ¬ In k (map (fun pi => PeerId (ExtractHostInfo pi)) l) →
  fold_left store_info l db !! k = db !! k.
Proof.
  revert db. induction l as [|pi l IH]; intros db Hnot; cbn [fold_left].
  - reflexivity.
  - cbn in Hnot. rewrite IH by tauto. apply lookup_insert_ne. tauto.
Qed.

Lemma fold_store_info_found (l : list AddrInfo) (db : gmap string FilecoinPeer) (k : string) :
  In k (map (fun pi => PeerId (ExtractHostInfo pi)) l) →
  ∃ pi, In pi l ∧ PeerId (ExtractHostInfo pi) = k
        ∧ fold_left store_info l db !! k = Some (ExtractHostInfo pi).
Proof.
  revert db. induction l as [|pi l IH]; intros db Hin; cbn [fold_left].
  - destruct Hin.
  - destruct (in_dec string_dec k (map (fun pi => PeerId (ExtractHostInfo pi)) l))
      as [Hl | Hnl].
    + destruct (IH (store_info db pi) Hl) as (pi' & Hin' & Hid & Hlook).
      exists pi'. split; [now right | auto].
    + destruct Hin as [Hhere | Hl]; [|contradiction].
      exists pi. split; [now left|]. split; [exact Hhere|].
      rewrite fold_store_info_other by exact Hnl. rewrite <- Hhere.
      apply lookup_insert_eq.
Qed.

(** X19. After a dial that succeeded, on a database that is a map from id
    to peer: under the id of the peer that was dialed and under the id of
    each neighbour it returned, the database holds the host info extracted
    for that id, so each of them is a known peer that the next refresh of
    the feed puts in the array; every other id is as it was. *)
Theorem successful_dial_stores_neighbours (pid : string) (db db' : gmap string FilecoinPeer)
        (d d' : discoveredPeers) :
  Addrs (dialed peer_Decode pid db) ≠ [] →
  Connect (dialed peer_Decode pid db) = None →
  snd (crawlNetwork_worker peer_Decode Connect ExtractHostInfo fetchNeighbors pid db d)
  = Some (db', d') →
  let met := dialed peer_Decode pid db :: fetchNeighbors (dialed peer_Decode pid db) in
  (∀ pi, In pi met →
         (∃ pi', In pi' met ∧ PeerId (ExtractHostInfo pi') = PeerId (ExtractHostInfo pi)
                 ∧ db' !! PeerId (ExtractHostInfo pi) = Some (ExtractHostInfo pi'))
         ∧ In (PeerId (ExtractHostInfo pi)) (pArray (refreshPeerList db' d')))
  ∧ (∀ k, ¬ In k (map (fun pi => PeerId (ExtractHostInfo pi)) met) → db' !! k = db !! k).
Proof.
  intros Haddrs Hok Hrun. cbv zeta.
  assert (Hlen : (length (Addrs (dialed peer_Decode pid db)) =? 0)%nat = false).
  { destruct (Addrs (dialed peer_Decode pid db)); [congruence | reflexivity]. }
  unfold crawlNetwork_worker in Hrun. cbv zeta in Hrun.
  fold (dialed peer_Decode pid db) in Hrun. rewrite Hlen, Hok in Hrun. cbn [snd] in Hrun.
  destruct (ReqNextPeer d) as [d1|]; [|discriminate]. cbn in Hrun.
  injection Hrun as Hdb <-.
  set (met := dialed peer_Decode pid db :: fetchNeighbors (dialed peer_Decode pid db)).
  assert (Hfold : db' = fold_left store_info met db) by (now rewrite <- Hdb).
  clear Hdb. split.
  - intros pi Hin.
    assert (Hk : In (PeerId (ExtractHostInfo pi))
                    (map (fun pi => PeerId (ExtractHostInfo pi)) met)).
    { apply in_map_iff. eauto. }
    destruct (fold_store_info_found met db _ Hk) as (pi' & Hin' & Hid & Hlook).
    rewrite <- Hfold in Hlook. split; [eauto|].
    rewrite refreshPeerList_spec. cbn [with_pArray pArray]. apply in_or_app. right.
    apply known_loadable. apply map_db_known. eauto.
  - intros k Hnot. rewrite Hfold. now apply fold_store_info_other.
Qed.
End Neighbours.
End CrawlerWorkers.

(** ** The start of the crawler *)

Module CrawlerStart.
Import Crawler CrawlerSpec.

Section Start.
Context {D : Type} {DB : FilecoinDB D}.
Variable ExtractHostInfo : AddrInfo → FilecoinPeer.

(** X20. On a database in which no peer is known, the crawler starts with
    an empty array although the bootstrap nodes have been stored, since the
    feed is made before they are: the first request sends no peer, it makes
    the feeder wait [minWaitTime], put the request back, raise the refresh
    flag and only then take the peers of the database into the array. *)
Theorem first_request_on_new_database (bootstrapNodes : list AddrInfo) (db0 : D) :
  (∀ pid, ¬ known db0 pid) →
  let s := crawlNetwork_setup ExtractHostInfo bootstrapNodes db0 in
  pArray (dp (feed s)) = []
  ∧ on_request (db s) (feed s)
    = Done ({| dp := {| pArray := List.filter (loadable (db s)) (GetFilecoinPeers (db s));
                        blacklist := ∅; nPeerChan := []; nPeerReq := 1 |};
               pointer := 0; refreshFlag := true |},
            [EvSleep minWaitTime; EvReqNextPeer; EvRefresh]).
Proof.
  intros Hnone. cbv zeta.
  assert (Hf : List.filter (loadable db0) (GetFilecoinPeers db0) = []).
  { destruct (List.filter (loadable db0) (GetFilecoinPeers db0)) as [|pid a] eqn:Hl;
      [reflexivity|].
    destruct (Hnone pid). apply known_loadable. rewrite Hl. now left. }
  unfold crawlNetwork_setup, NewDiscoveryPeers. rewrite refreshPeerList_spec.
  cbn [with_pArray pArray blacklist nPeerChan nPeerReq app feed db Run dp].
  rewrite Hf. split; [reflexivity|].
  unfold on_request, ReqNextPeer, refresh_check, Run, with_pArray.
  cbn [dp pointer refreshFlag pArray blacklist nPeerChan nPeerReq length Nat.eqb negb orb].
  assert (Hroom : (0 <? workers)%nat = true) by reflexivity. rewrite Hroom.
  cbn [dp pointer refreshFlag orb]. rewrite refreshPeerList_spec. reflexivity.
Qed.
End Start.
End CrawlerStart.

(** ** The properties on concrete stores and feeds *)

Module PeerStoreSamples.
Import PeerStore PeerStoreSpec PeerStoreMore PeerModel.

Lemma memory_store_consistent (peers : list (Peer.t Dynamic)) :
  consistent (memory_store peers).
Proof.
  unfold memory_store.
  generalize (NewPeerStore_memory_consistent (R := Dynamic) "peerstore.db" (fun _ => ∅) 0 "").
  generalize (NewPeerStore (R := Dynamic) "peerstore.db" (fun _ => ∅) 0 "memory" "").
  induction peers as [|p peers IH]; intros c Hc; cbn [fold_left].
  - exact Hc.
  - apply IH. now apply StorePeer_consistent.
Qed.

Lemma events_keep_consistency_witness :
  let c := memory_store [new_peer "P1"] in
  consistent c
  ∧ consistent (snd (MessageEvent 7 c "P1" "/eth2/beacon_block"))
  ∧ consistent (snd (AddNewNegConnectionAttempt c "P1" "dial-timeout" log_error)).
Proof.
  cbv zeta.
  assert (Hc : consistent (memory_store [new_peer "P1"])) by apply memory_store_consistent.
  split; [exact Hc|].
  destruct (events_keep_consistency (memory_store [new_peer "P1"]) "P1" (new_peer "P2") 7
              "inbound" "/eth2/beacon_block" "dial-timeout" "dial-timeout" true false
              log_error Hc) as (_ & _ & _ & _ & Hmsg & _ & _ & Hneg).
  split; [exact Hmsg | exact Hneg].
Defined.

Lemma metadata_events_present_witness :
  let c := memory_store [new_peer "P1"; new_peer "P2"] in
  Load (Storage c) "P1" = Some (new_peer "P1")
  ∧ Load (Storage (metadata_events c "P1" [false; true; false])) "P1"
    = Some (Peer.Make "P1" true true false false 0%N "" no_events).
Proof.
  cbv zeta.
  assert (Hload : Load (Storage (memory_store [new_peer "P1"; new_peer "P2"])) "P1"
                  = Some (new_peer "P1")) by reflexivity.
  split; [exact Hload|].
  exact (proj1 (metadata_events_present (memory_store [new_peer "P1"; new_peer "P2"]) "P1"
                  (new_peer "P1") [false; true; false] Hload eq_refl
                  ltac:(discriminate))).
Defined.

Lemma attempts_frame_witness :
  let c := memory_store [new_peer "P1"; new_peer "P2"] in
  let ops := [NegAttempt "dial-timeout" forget_attempts; PosAttempt] in
  Load (Storage c) "P1" = Some (new_peer "P1")
  ∧ Load (Storage (attempts c "P1" ops)) "P2" = Load (Storage c) "P2".
Proof.
  cbv zeta.
  assert (Hload : Load (Storage (memory_store [new_peer "P1"; new_peer "P2"])) "P1"
                  = Some (new_peer "P1")) by reflexivity.
  split; [exact Hload|].
  apply (attempts_frame (memory_store [new_peer "P1"; new_peer "P2"]) "P1" (new_peer "P1")).
  - intros q. reflexivity.
  - repeat constructor.
  - exact Hload.
  - reflexivity.
  - discriminate.
Defined.
End PeerStoreSamples.

Module CrawlerSamples.
Import Crawler CrawlerSpec CrawlerMore CrawlerRuns CrawlerWorkers CrawlerStart.
#[local] Existing Instance map_db.

Lemma blacklisted_entry_skipped_witness :
  let f := Run (Blacklist (Sample.feed_of ["P1"%string] 0) "P1") in
  isBlacklisted (dp f) "P1" = true
  ∧ on_request Sample.db1 f
    = Done ({| dp := {| pArray := ["P1"%string]; blacklist := <["P1"%string := ()]> ∅;
                        nPeerChan := []; nPeerReq := 1 |};
               pointer := 1; refreshFlag := false |}, [EvReqNextPeer]).
Proof.
  cbv zeta. split; [reflexivity|].
  exact (blacklisted_entry_skipped Sample.db1
           (Run (Blacklist (Sample.feed_of ["P1"%string] 0) "P1")) "P1"
           eq_refl eq_refl ltac:(vm_compute; lia)).
Defined.

Lemma sample_exec : exec Sample.start Sample.trace Sample.after_trace.
Proof.
  apply (run_exec [FeedRequest; FeedContinue; FeedContinue; WorkerReceive;
                   WorkerBlacklist "P1"]).
  reflexivity.
Qed.

Lemma feed_array_append_only_witness :
  exec Sample.start Sample.trace Sample.after_trace
  ∧ pArray (dp (feed Sample.start)) `prefix_of` pArray (dp (feed Sample.after_trace))
  ∧ (pointer (feed Sample.start) ≤ pointer (feed Sample.after_trace))%nat.
Proof.
  split; [exact sample_exec|].
  destruct (feed_array_append_only Sample.start Sample.after_trace Sample.trace sample_exec)
    as (Hp & Hc & _).
  split; [exact Hp | exact Hc].
Defined.

Lemma blacklist_of_execution_witness :
  exec Sample.start Sample.trace Sample.after_trace
  ∧ (isBlacklisted (dp (feed Sample.after_trace)) "P1" = true
     ↔ isBlacklisted (dp (feed Sample.start)) "P1" = true
       ∨ In (WorkerBlacklist "P1") (map fst Sample.trace)).
Proof.
  split; [exact sample_exec|].
  exact (blacklist_of_execution Sample.start Sample.after_trace Sample.trace "P1" sample_exec).
Defined.

Lemma map_db_known_P1 : known Sample.db1 "P1".
Proof. apply (proj2 (map_db_known Sample.db1 "P1")). eexists. reflexivity. Qed.

Lemma served_request_keeps_cursor_inside_witness :
  let f := Run (Sample.feed_of ["P1"%string] 0) in
  let f' := {| dp := {| pArray := ["P1"; "P1"]%string; blacklist := ∅;
                        nPeerChan := ["P1"%string]; nPeerReq := 0 |};
               pointer := 1; refreshFlag := false |} in
  on_request Sample.db1 f = Done (f', [EvSend "P1"; EvRefresh])
  ∧ (pointer f' < length (pArray (dp f')))%nat
  ∧ on_request Sample.db1 f' ≠ Panic.
Proof.
  cbv zeta.
  match goal with |- ?E ∧ _ => assert (Hreq : E) by reflexivity end.
  split; [exact Hreq|].
  refine (served_request_keeps_cursor_inside Sample.db1 _ _ _ "P1" map_db_known_P1 Hreq _).
  left. exists "P1"%string. split; reflexivity.
Defined.

Lemma refresh_flag_sticky_witness :
  let f := {| dp := Sample.feed_of ["P1"; "P1"]%string 0; pointer := 0;
              refreshFlag := true |} in
  let f' := {| dp := {| pArray := ["P1"; "P1"; "P1"]%string; blacklist := ∅;
                        nPeerChan := ["P1"%string]; nPeerReq := 0 |};
               pointer := 1; refreshFlag := true |} in
  on_request Sample.db1 f = Done (f', [EvSend "P1"; EvRefresh])
  ∧ (refreshFlag f' = true ↔ refreshFlag f = true ∨ pArray (dp f) = []).
Proof.
  cbv zeta.
  match goal with |- ?E ∧ _ => assert (Hreq : E) by reflexivity end.
  split; [exact Hreq|].
  exact (proj1 (refresh_flag_sticky Sample.db1 _ _ _ Hreq)).
Defined.

Lemma successful_dial_stores_neighbours_witness :
  let d := Sample.feed_of ["P1"%string] 0 in
  let db' := <["P2"%string := {| PeerId := "P2"; MAddrs := [Sample.addr2] |}]> Sample.db1 in
  let d' := Sample.feed_of ["P1"%string] 1 in
  snd (crawlNetwork_worker Sample.decode Sample.open_host Sample.host_info
         Sample.one_neighbor "P1" Sample.db1 d) = Some (db', d')
  ∧ In "P2"%string (pArray (refreshPeerList db' d')).
Proof.
  cbv zeta.
  match goal with |- ?E ∧ _ => assert (Hrun : E) by reflexivity end.
  split; [exact Hrun|].
  assert (Haddrs : Addrs (dialed Sample.decode "P1" Sample.db1) ≠ [])
    by (vm_compute; discriminate).
  destruct (successful_dial_stores_neighbours Sample.decode Sample.open_host
              Sample.host_info Sample.one_neighbor "P1" Sample.db1 _ _ _
              Haddrs eq_refl Hrun) as [Hmet _].
  exact (proj2 (Hmet {| ID := "P2"; Addrs := [Sample.addr2] |}
                     (or_intror (or_introl eq_refl)))).
Defined.

Lemma first_request_on_new_database_witness :
  let s := crawlNetwork_setup Sample.host_info
             [{| ID := "P1"; Addrs := [Sample.addr1] |}]
             (∅ : gmap string FilecoinPeer) in
  (∀ pid, ¬ known (∅ : gmap string FilecoinPeer) pid)
  ∧ pArray (dp (feed s)) = []
  ∧ db s !! "P1"%string = Some {| PeerId := "P1"; MAddrs := [Sample.addr1] |}.
Proof.
  cbv zeta.
  assert (Hnone : ∀ pid, ¬ known (∅ : gmap string FilecoinPeer) pid).
  { intros pid Hk. apply (proj1 (map_db_known ∅ pid)) in Hk as [p Hp].
    now rewrite lookup_empty in Hp. }
  split; [exact Hnone|].
  split; [|reflexivity].
  exact (proj1 (first_request_on_new_database Sample.host_info
                  [{| ID := "P1"; Addrs := [Sample.addr1] |}] ∅ Hnone)).
Defined.
End CrawlerSamples.
